(** * Amadeus MCP proxy: path allowlist, token provider, request forwarder

    A shallow embedding of the authentication-and-forwarding core of the
    Amadeus MCP server ([src/index.js] and the per-endpoint variant of the
    same server) together with the properties its specification states.

    JavaScript strings are modelled by [string]; only the 8-bit code units
    are represented and case mapping is the ASCII one. *)

From Stdlib Require Import String Ascii ZArith List Bool Lia.
From stdpp Require Import gmap strings.

Local Open Scope string_scope.
Local Open Scope list_scope.
Local Open Scope Z_scope.

(** ** JavaScript string primitives used by the server *)

Module JsString.

(** [s.includes(c)] for a one-character needle. *)
Fixpoint includes (c : ascii) (s : string) : bool :=
  match s with
  | EmptyString => false
  | String c' s' => Ascii.eqb c' c || includes c s'
  end.

(** [s.startsWith(c)] for a one-character prefix. *)
Definition startsWith (c : ascii) (s : string) : bool :=
  match s with
  | EmptyString => false
  | String c' _ => Ascii.eqb c' c
  end.

(** [s.split(sep)] for a one-character separator; never empty. *)
Fixpoint split (sep : ascii) (s : string) : list string :=
  match s with
  | EmptyString => [EmptyString]
  | String c s' =>
      if Ascii.eqb c sep then EmptyString :: split sep s'
      else match split sep s' with
           | [] => [String c EmptyString]
           | seg :: segs => String c seg :: segs
           end
  end.

(** [l.join(sep)]. *)
Fixpoint join (sep : string) (l : list string) : string :=
  match l with
  | [] => EmptyString
  | [x] => x
  | x :: l' => x +:+ sep +:+ join sep l'
  end.

Definition lowerChar (c : ascii) : ascii :=
  let n := N_of_ascii c in
  if ((65 <=? n) && (n <=? 90))%N then ascii_of_N (n + 32) else c.

Definition upperChar (c : ascii) : ascii :=
  let n := N_of_ascii c in
  if ((97 <=? n) && (n <=? 122))%N then ascii_of_N (n - 32) else c.

Fixpoint mapChars (f : ascii -> ascii) (s : string) : string :=
  match s with
  | EmptyString => EmptyString
  | String c s' => String (f c) (mapChars f s')
  end.

Definition toLowerCase : string -> string := mapChars lowerChar.
Definition toUpperCase : string -> string := mapChars upperChar.

(** White space removed by [trim()], among the 8-bit code units. *)
Definition isWhite (c : ascii) : bool :=
  let n := N_of_ascii c in
  ((9 <=? n) && (n <=? 13) || (n =? 32) || (n =? 160))%N.

(** [s.trim() === ""]. *)
Fixpoint trimIsEmpty (s : string) : bool :=
  match s with
  | EmptyString => true
  | String c s' => isWhite c && trimIsEmpty s'
  end.

(** A segment a placeholder accepts: non-empty and free of slashes. *)
Fixpoint slashFree (s : string) : bool :=
  match s with
  | EmptyString => true
  | String c s' => negb (Ascii.eqb c "/") && slashFree s'
  end.

Definition isSegment (s : string) : bool :=
  match s with
  | EmptyString => false
  | String _ _ => slashFree s
  end.

End JsString.

(** ** The fragment of [RegExp] the allowlist compiles to *)

Module RegExp.

Inductive tok : Type :=
| BeginInput                (* ^ *)
| EndInput                  (* $ *)
| Lit (c : ascii)           (* an ordinary character *)
| NotSlashPlus.             (* [^/]+ *)

Definition isMeta (c : ascii) : bool :=
  JsString.includes c "\^$.|?*+()[]{}".

Definition isClassPlus (a b c d e : ascii) : bool :=
  Ascii.eqb a "[" && Ascii.eqb b "^" && Ascii.eqb c "/"
  && Ascii.eqb d "]" && Ascii.eqb e "+".

Definition single (a : ascii) (rest : option (list tok)) : option (list tok) :=
  if Ascii.eqb a "^" then cons BeginInput <$> rest
  else if Ascii.eqb a "$" then cons EndInput <$> rest
  else if isMeta a then None
  else cons (Lit a) <$> rest.

(** [new RegExp(src)]: [None] when [src] leaves the modelled fragment. *)
Fixpoint compile (src : string) : option (list tok) :=
  match src with
  | EmptyString => Some []
  | String a r1 =>
      match r1 with
      | String b (String c (String d (String e rest))) =>
          if isClassPlus a b c d e then cons NotSlashPlus <$> compile rest
          else single a (compile r1)
      | _ => single a (compile r1)
      end
  end.

(** Match [r] at the current position; [bos] tells whether the position
    is the beginning of the input. *)
Fixpoint matchHere (r : list tok) (bos : bool) : string -> bool :=
  match r with
  | [] => fun _ => true
  | BeginInput :: r' => fun s => bos && matchHere r' bos s
  | EndInput :: r' =>
      fun s => match s with
               | EmptyString => matchHere r' bos s
               | String _ _ => false
               end
  | Lit c :: r' =>
      fun s => match s with
               | EmptyString => false
               | String c' s' => Ascii.eqb c' c && matchHere r' false s'
               end
  | NotSlashPlus :: r' =>
      fix plus (s : string) : bool :=
        match s with
        | EmptyString => false
        | String c s' =>
            negb (Ascii.eqb c "/") && (plus s' || matchHere r' false s')
        end
  end.

Fixpoint searchFrom (r : list tok) (s : string) : bool :=
  match s with
  | EmptyString => false
  | String _ s' => matchHere r false s' || searchFrom r s'
  end.

(** [regex.test(s)]: a match starting at any position. *)
Definition test (r : list tok) (s : string) : bool :=
  matchHere r true s || searchFrom r s.

End RegExp.

(** ** PathMatcher *)

Definition AMADEUS_TOKEN_PATH : string := "/v1/security/oauth2/token".

Definition ALLOWED_PATHS : list string :=
  [ "/v2/shopping/flight-offers";
    "/v1/shopping/flight-dates";
    "/v1/shopping/flight-offers/pricing";
    "/v1/booking/flight-orders";
    "/v1/booking/flight-orders/:flightOrderId";
    "/v1/shopping/seatmaps";
    "/v2/schedule/flights";
    "/v1/travel/predictions/flight-delay";
    "/v1/analytics/itinerary-price-metrics";
    "/v1/shopping/flight-offers/upselling";
    "/v2/shopping/flight-offers/prediction";
    "/v1/shopping/flight-destinations";
    "/v1/shopping/availability/flight-availabilities";
    "/v1/reference-data/recommended-locations";
    "/v1/airport/predictions/on-time";
    "/v1/reference-data/locations";
    "/v1/reference-data/locations/CMUC";
    "/v1/reference-data/locations/airports";
    "/v1/airport/direct-destinations";
    "/v2/reference-data/urls/checkin-links";
    "/v1/reference-data/airlines";
    "/v1/airline/destinations";
    "/v1/shopping/activities";
    "/v1/shopping/activities/4615";
    "/v1/shopping/activities/by-square";
    "/v1/reference-data/locations/cities";
    "/v1/shopping/transfer-offers";
    "/v1/ordering/transfer-orders";
    "/v1/ordering/transfer-orders/:transferOrderId/transfers/cancellation";
    "/v1/travel/analytics/air-traffic/traveled";
    "/v1/travel/analytics/air-traffic/booked";
    "/v1/travel/analytics/air-traffic/busiest-period";
    "/v1/security/oauth2/token";
    "/v1/reference-data/locations/hotels/by-city";
    "/v3/shopping/hotel-offers";
    "/v1/booking/hotel-bookings";
    "/v1/reference-data/locations/hotels/by-hotels";
    "/v1/reference-data/locations/hotels/by-geocode";
    "/v3/shopping/hotel-offers/:hotelOfferId";
    "/v2/booking/hotel-orders";
    "/v2/e-reputation/hotel-sentiments";
    "/v1/reference-data/locations/hotel";
    "/v1/travel/predictions/trip-purpose" ].

(** [set.has(x)] on the insertion-ordered set. *)
Definition has (set : list string) (x : string) : bool :=
  existsb (String.eqb x) set.

(** The source text handed to [new RegExp] for the template [p]. *)
Definition regexSource (p : string) : string :=
  "^" +:+
  JsString.join "/"
    (map (fun seg => if JsString.startsWith ":" seg then "[^/]+" else seg)
         (JsString.split "/" p))
  +:+ "$".

(** One turn of the loop over [ALLOWED_PATHS]: does the template [p]
    accept [requestPath]? *)
Definition templateAccepts (p requestPath : string) : bool :=
  if negb (JsString.includes ":" p) then false
  else match RegExp.compile (regexSource p) with
       | Some regex => RegExp.test regex requestPath
       | None => false
       end.

Definition pathIsAllowed (requestPath : string) : bool :=
  if has ALLOWED_PATHS requestPath then true
  else existsb (fun p => templateAccepts p requestPath) ALLOWED_PATHS.

(** ** Segment-wise reading of a template

    The specification describes a template as a list of segments, each a
    literal or a placeholder. [segmentsMatch] is that reading; it is
    compared with the regular expression of the source below. *)

Definition segAccept (t x : string) : bool :=
  if JsString.startsWith ":" t then JsString.isSegment x else String.eqb x t.

Fixpoint segmentsMatch (ts xs : list string) : bool :=
  match ts, xs with
  | [], [] => true
  | t :: ts', x :: xs' => segAccept t x && segmentsMatch ts' xs'
  | _, _ => false
  end.

(** The path obtained by putting [x] in the place of every placeholder. *)
Definition substitute (p x : string) : string :=
  JsString.join "/"
    (map (fun seg => if JsString.startsWith ":" seg then x else seg)
         (JsString.split "/" p)).

(** The candidate up to its first [?] or [#]. *)
Fixpoint pathComponent (s : string) : string :=
  match s with
  | EmptyString => EmptyString
  | String c s' =>
      if Ascii.eqb c "?" || Ascii.eqb c "#" then EmptyString
      else String c (pathComponent s')
  end.

Definition hasQueryOrFragment (s : string) : bool :=
  JsString.includes "?" s || JsString.includes "#" s.

(** Tokens of the regular expression of a list of template segments. *)
Fixpoint lits (t : string) : list RegExp.tok :=
  match t with
  | EmptyString => []
  | String c t' => RegExp.Lit c :: lits t'
  end.

Definition segToks (t : string) : list RegExp.tok :=
  if JsString.startsWith ":" t then [RegExp.NotSlashPlus] else lits t.

Fixpoint toks (ts : list string) : list RegExp.tok :=
  match ts with
  | [] => []
  | [t] => segToks t
  | t :: ts' => segToks t ++ RegExp.Lit "/" :: toks ts'
  end.

(** The segment-wise reading of a template with a placeholder. *)
Definition templateMatch (p s : string) : bool :=
  JsString.includes ":" p
  && segmentsMatch (JsString.split "/" p) (JsString.split "/" s).

(** ** Deciding the allowlist on segment lists *)

Fixpoint segsEqb (xs es : list string) : bool :=
  match xs, es with
  | [], [] => true
  | x :: xs', e :: es' => String.eqb x e && segsEqb xs' es'
  | _, _ => false
  end.

(** The entries of the allowlist, split at the slashes. *)
Definition ALLOWED_SEGS : list (list string) :=
  Eval vm_compute in map (JsString.split "/") ALLOWED_PATHS.

Definition hasSegs (xs : list string) : bool :=
  existsb (segsEqb xs) ALLOWED_SEGS.

(** The three templates of the allowlist, by their segments. *)
Definition templateSegs (xs : list string) : bool :=
  segmentsMatch ["";"v1";"booking";"flight-orders";":flightOrderId"] xs
  || segmentsMatch ["";"v1";"ordering";"transfer-orders";":transferOrderId";
                    "transfers";"cancellation"] xs
  || segmentsMatch ["";"v3";"shopping";"hotel-offers";":hotelOfferId"] xs.

(** ** Prefixes of allowlist entries *)

Definition properPrefix (s e : string) : Prop :=
  exists t, t <> EmptyString /\ e = s +:+ t.

Fixpoint properPrefixes (e : string) : list string :=
  match e with
  | EmptyString => []
  | String c e' => EmptyString :: map (String c) (properPrefixes e')
  end.

(** Every proper prefix of a colon-free entry is an entry or is rejected. *)
Definition prefixesChecked : bool :=
  forallb
    (fun e =>
       JsString.includes ":" e
       || forallb (fun s => has ALLOWED_PATHS s || negb (pathIsAllowed s))
            (properPrefixes e))
    ALLOWED_PATHS.

(** ** JavaScript values, errors and results *)

(** A number is an integer or lies strictly between two integers:
    [NumFrac f n d] stands for [f + n / (n + d)]. *)
Inductive JsNumber : Type :=
| NumInt (z : Z)
| NumFrac (floor : Z) (num den : positive).

(** Values as they arrive in tool arguments and HTTP bodies; an object is
    the list of its own properties in insertion order. *)
#[warnings="-register-all"]
Inductive JsValue : Type :=
| JsUndefined
| JsNull
| JsBool (b : bool)
| JsNum (n : JsNumber)
| JsStr (s : string)
| JsArr (items : list JsValue)
| JsObj (props : list (string * JsValue)).

Module Js.

(** [!!v] *)
Definition truthy (v : JsValue) : bool :=
  match v with
  | JsUndefined | JsNull => false
  | JsBool b => b
  | JsNum (NumInt z) => negb (z =? 0)
  | JsNum (NumFrac _ _ _) => true
  | JsStr s => negb (String.eqb s "")
  | JsArr _ | JsObj _ => true
  end.

(** [v === undefined || v === null], the test behind [??] and [?.]. *)
Definition nullish (v : JsValue) : bool :=
  match v with
  | JsUndefined | JsNull => true
  | _ => false
  end.

(** [typeof v === "object"] *)
Definition typeofObject (v : JsValue) : bool :=
  match v with
  | JsNull | JsArr _ | JsObj _ => true
  | _ => false
  end.

Fixpoint lookupProp (k : string) (props : list (string * JsValue)) : JsValue :=
  match props with
  | [] => JsUndefined
  | (k', v) :: rest => if String.eqb k' k then v else lookupProp k rest
  end.

(** [v.k] for a key that no prototype defines; used on the argument
    object of a tool and behind guards that exclude [null] and
    [undefined]. *)
Definition getProp (v : JsValue) (k : string) : JsValue :=
  match v with
  | JsObj props => lookupProp k props
  | _ => JsUndefined
  end.

(** [Number.isInteger(v)] *)
Definition isInteger (v : JsValue) : bool :=
  match v with
  | JsNum (NumInt _) => true
  | _ => false
  end.

Fixpoint digits (fuel : nat) (n : Z) (acc : string) : string :=
  match fuel with
  | O => acc
  | S fuel' =>
      let acc' := String (ascii_of_N (48 + Z.to_N (n mod 10))) acc in
      if n <? 10 then acc' else digits fuel' (n / 10) acc'
  end.

(** Decimal text of an integer, as a template literal prints it. *)
Definition decimal (n : Z) : string :=
  if n <? 0 then "-" +:+ digits (S (Z.to_nat (Z.log2 (- n)))) (- n) ""
  else digits (S (Z.to_nat (Z.log2 n))) n "".

Fixpoint indexed (i : Z) (items : list JsValue) : list (string * JsValue) :=
  match items with
  | [] => []
  | v :: rest => (decimal i, v) :: indexed (i + 1) rest
  end.

(** Own enumerable properties, as [Object.keys] and spread see them. *)
Definition ownProps (v : JsValue) : list (string * JsValue) :=
  match v with
  | JsObj props => props
  | JsArr items => indexed 0 items
  | _ => []
  end.

End Js.

(** The response axios hands over or attaches to an error. *)
Record HttpResponse : Type := { status : Z; data : JsValue }.

(** What a [throw] carries: an [Error] (axios adds the response when one
    arrived), or the error of a failed schema parse with its issues. *)
Inductive Thrown : Type :=
| JsError (message : string) (response : option HttpResponse)
| ZodError (issues : list string).

Definition messageOf (e : Thrown) : string :=
  match e with
  | JsError m _ => m
  | ZodError _ => "ZodError"
  end.

Definition responseOf (e : Thrown) : option HttpResponse :=
  match e with
  | JsError _ r => r
  | ZodError _ => None
  end.

(** The configuration of one axios call. [validateAll] is the
    [validateStatus: () => true] of the forwarded request. *)
Record AxiosConfig : Type := {
  method : string;
  url : string;
  params : JsValue;
  body : JsValue;
  headers : gmap string JsValue;
  timeout : Z;
  maxRedirects : option Z;
  validateAll : bool
}.

(** What the network does with a request: a response arrives, or the
    transport fails (DNS, refused connection, timeout, TLS). *)
Inductive NetOutcome : Type :=
| NetResponse (st : Z) (d : JsValue)
| NetFailure (msg : string).

(** The result of a tool: [{content: [{type: "text", text}], isError}]. *)
Record ToolResult : Type := { text : string; isError : bool }.

(** The result of the forwarder: [{payload, isError}]. *)
Record ForwardResult : Type := { payload : string; fwdIsError : bool }.

(** ** Computations that issue HTTP requests and may throw

    A computation takes the requests issued so far and returns the
    requests issued after it together with a thrown value or a result. *)

Definition M (A : Type) : Type :=
  list AxiosConfig -> list AxiosConfig * (Thrown + A).

Definition ret {A} (a : A) : M A := fun tr => (tr, inr a).

Definition throw {A} (e : Thrown) : M A := fun tr => (tr, inl e).

Definition bind {A B} (m : M A) (k : A -> M B) : M B :=
  fun tr =>
    match m tr with
    | (tr', inl e) => (tr', inl e)
    | (tr', inr a) => k a tr'
    end.

(** [try { body } catch (e) { handler }] *)
Definition tryCatch {A} (body : M A) (handler : Thrown -> M A) : M A :=
  fun tr =>
    match body tr with
    | (tr', inl e) => handler e tr'
    | (tr', inr a) => (tr', inr a)
    end.

(** A synchronous call that returns or throws. *)
Definition lift {A} (r : Thrown + A) : M A := fun tr => (tr, r).

#[global] Instance M_ret : MRet M := @ret.
#[global] Instance M_bind : MBind M := fun A B k m => bind m k.

(** ** Validated arguments *)

(** What [normalizeBase] returns. *)
Record BaseArgs : Type := {
  b_serviceName : string;
  b_apiKey : string;
  b_apiSecret : string;
  b_query : JsValue;
  b_body : JsValue;
  b_headers : JsValue;
  b_contentType : string;
  b_timeoutMs : Z
}.

(** The argument of the forwarder: the base arguments with a method and a
    path. *)
Record ForwardArgs : Type := {
  serviceName : string;
  apiKey : string;
  apiSecret : string;
  fmethod : string;
  path : string;
  query : JsValue;
  fbody : JsValue;
  fheaders : JsValue;
  contentType : string;
  timeoutMs : Z
}.

(** [{ ...args, method, path }] *)
Definition withRoute (a : BaseArgs) (m p : string) : ForwardArgs :=
  {| serviceName := b_serviceName a; apiKey := b_apiKey a;
     apiSecret := b_apiSecret a; fmethod := m; path := p;
     query := b_query a; fbody := b_body a; fheaders := b_headers a;
     contentType := b_contentType a; timeoutMs := b_timeoutMs a |}.

#[global] Instance Thrown_ret : MRet (sum Thrown) := fun A a => inr a.
#[global] Instance Thrown_bind : MBind (sum Thrown) :=
  fun A B k m => match m with inl e => inl e | inr a => k a end.

Definition ensureString (val : JsValue) (name : string) : Thrown + string :=
  match val with
  | JsStr s =>
      if JsString.trimIsEmpty s
      then inl (JsError (name +:+ " must be a non-empty string") None)
      else inr s
  | _ => inl (JsError (name +:+ " must be a non-empty string") None)
  end.

(** The object [lower] of the authorization check: every own key of the
    headers, lower-cased, with the value found under the key. *)
Definition lowerKeys (props : list (string * JsValue)) : gmap string JsValue :=
  foldl (fun lower kv =>
           <[ JsString.toLowerCase kv.1 := Js.lookupProp kv.1 props ]> lower)
        ∅ props.

Definition hasAuthorizationKey (h : JsValue) : bool :=
  match lowerKeys (Js.ownProps h) !! "authorization" with
  | Some _ => true
  | None => false
  end.

Definition authHeaderMessage : string :=
  "Do not send Authorization; it will be set by the server.".

Definition assertNoAuthHeader (h : JsValue) : Thrown + unit :=
  if negb (Js.truthy h) then inr tt
  else if hasAuthorizationKey h then inl (JsError authHeaderMessage None)
  else inr tt.

Definition timeoutMessage : string :=
  "timeoutMs must be a positive integer up to 60000".

(** [v && typeof v === "object" ? v : {}] *)
Definition objectOrEmpty (v : JsValue) : JsValue :=
  if Js.truthy v && Js.typeofObject v then v else JsObj [].

Definition normalizeBase (input : JsValue) : Thrown + BaseArgs :=
  serviceName ← ensureString (Js.getProp input "serviceName") "serviceName";
  apiKey ← ensureString (Js.getProp input "apiKey") "apiKey";
  apiSecret ← ensureString (Js.getProp input "apiSecret") "apiSecret";
  let query := objectOrEmpty (Js.getProp input "query") in
  let body := Js.getProp input "body" in
  let headers := objectOrEmpty (Js.getProp input "headers") in
  _ ← assertNoAuthHeader headers;
  let contentType :=
    match Js.getProp input "contentType" with
    | JsStr s => s
    | _ => "application/json"
    end in
  let timeoutMs :=
    match Js.getProp input "timeoutMs" with
    | JsNum (NumInt z) => z
    | _ => 15000
    end in
  if negb ((0 <? timeoutMs) && (timeoutMs <=? 60000))
  then inl (JsError timeoutMessage None)
  else inr {| b_serviceName := serviceName; b_apiKey := apiKey;
              b_apiSecret := apiSecret; b_query := query; b_body := body;
              b_headers := headers; b_contentType := contentType;
              b_timeoutMs := timeoutMs |}.

(** *** The schema of [amadeus.request]

    Each field yields its issues and, when it parses, its value; the parse
    throws when any issue was raised. The texts of the issues the library
    words itself are shortened. *)

Definition zString (v : JsValue) (minLen : nat) (msg : string)
  : list string * option string :=
  match v with
  | JsStr s => if (minLen <=? String.length s)%nat then ([], Some s)
               else ([msg], Some s)
  | JsUndefined => (["Required"], None)
  | _ => (["Expected string"], None)
  end.

Definition zMethod (v : JsValue) : list string * option string :=
  match v with
  | JsStr s =>
      let m := JsString.toUpperCase s in
      if has ["GET"; "POST"; "PUT"; "PATCH"; "DELETE"] m then ([], Some m)
      else (["method must be one of GET, POST, PUT, PATCH, DELETE"], Some m)
  | JsUndefined => (["Required"], None)
  | _ => (["Expected string"], None)
  end.

Definition zPath (v : JsValue) : list string * option string :=
  match v with
  | JsStr s =>
      ((if JsString.startsWith "/" s then [] else ["path must start with '/'"])
       ++ (if pathIsAllowed s then []
           else ["path is not allowed by server policy"]),
       Some s)
  | JsUndefined => (["Required"], None)
  | _ => (["Expected string"], None)
  end.

Definition zQuery (v : JsValue) : list string * option JsValue :=
  match v with
  | JsUndefined => ([], Some (JsObj []))
  | JsObj _ => ([], Some v)
  | _ => (["Expected object"], None)
  end.

Definition isStr (v : JsValue) : bool :=
  match v with JsStr _ => true | _ => false end.

Definition zHeaders (v : JsValue) : list string * option JsValue :=
  match v with
  | JsUndefined => ([], Some (JsObj []))
  | JsObj props =>
      ((if forallb (fun kv => isStr kv.2) props then [] else ["Expected string"])
       ++ (if hasAuthorizationKey v then [authHeaderMessage] else []),
       Some v)
  | _ => (["Expected object"], None)
  end.

Definition zContentType (v : JsValue) : list string * option string :=
  match v with
  | JsUndefined => ([], Some "application/json")
  | JsStr s => ([], Some s)
  | _ => (["Expected string"], None)
  end.

Definition zTimeout (v : JsValue) : list string * option Z :=
  match v with
  | JsUndefined => ([], Some 15000)
  | JsNum (NumInt z) =>
      ((if 0 <? z then [] else ["Number must be greater than 0"])
       ++ (if z <=? 60000 then []
           else ["Number must be less than or equal to 60000"]),
       Some z)
  | JsNum (NumFrac _ _ _) => (["Expected integer, received float"], None)
  | _ => (["Expected number"], None)
  end.

Definition RequestSchema_parse (input : JsValue) : Thrown + ForwardArgs :=
  match input with
  | JsObj _ =>
      let sn := zString (Js.getProp input "serviceName") 2 "serviceName is required" in
      let ak := zString (Js.getProp input "apiKey") 1 "apiKey is required" in
      let sc := zString (Js.getProp input "apiSecret") 1 "apiSecret is required" in
      let me := zMethod (Js.getProp input "method") in
      let pa := zPath (Js.getProp input "path") in
      let qu := zQuery (Js.getProp input "query") in
      let he := zHeaders (Js.getProp input "headers") in
      let ct := zContentType (Js.getProp input "contentType") in
      let tm := zTimeout (Js.getProp input "timeoutMs") in
      match sn.1 ++ ak.1 ++ sc.1 ++ me.1 ++ pa.1 ++ qu.1 ++ he.1 ++ ct.1 ++ tm.1 with
      | [] =>
          match sn.2, ak.2, sc.2, me.2, pa.2, qu.2, he.2, ct.2, tm.2 with
          | Some sn', Some ak', Some sc', Some me', Some pa', Some qu',
            Some he', Some ct', Some tm' =>
              inr {| serviceName := sn'; apiKey := ak'; apiSecret := sc';
                     fmethod := me'; path := pa'; query := qu';
                     fbody := Js.getProp input "body"; fheaders := he';
                     contentType := ct'; timeoutMs := tm' |}
          | _, _, _, _, _, _, _, _, _ => inl (ZodError [])
          end
      | issues => inl (ZodError issues)
      end
  | _ => inl (ZodError ["Expected object"])
  end.

(** ** The server, over the runtime it runs on *)

Section Server.

(** The network answers a request, given the requests before it. *)
Variable network : list AxiosConfig -> AxiosConfig -> NetOutcome.

(** [JSON.stringify], string conversion in a template literal, and
    [new URLSearchParams(fields).toString()]. *)
Variable JSON_stringify : JsValue -> string.
Variable ToString : JsValue -> string.
Variable URLSearchParams_toString : list (string * string) -> string.

(** [axios.request(config)]: resolves with the response when the status
    passes [validateStatus] (by default the 2xx range), rejects with an
    error that carries the response otherwise, and rejects with an error
    without response when the transport fails. *)
Definition axios_request (config : AxiosConfig) : M HttpResponse :=
  fun tr =>
    let tr' := tr ++ [config] in
    match network tr config with
    | NetFailure msg => (tr', inl (JsError msg None))
    | NetResponse st d =>
        if validateAll config || ((200 <=? st) && (st <? 300))
        then (tr', inr {| status := st; data := d |})
        else (tr', inl (JsError
                          ("Request failed with status code " +:+ Js.decimal st)
                          (Some {| status := st; data := d |})))
    end.

(** [typeof v === "string" ? v : JSON.stringify(v)] *)
Definition textOf (v : JsValue) : string :=
  match v with
  | JsStr s => s
  | _ => JSON_stringify v
  end.

(** *** TokenProvider *)

Definition tokenRequest (apiKey apiSecret serviceName : string)
    (timeoutMs : Z) : AxiosConfig :=
  {| method := "POST";
     url := "https://" +:+ serviceName +:+ ".api.amadeus.com"
            +:+ AMADEUS_TOKEN_PATH;
     params := JsUndefined;
     body := JsStr (URLSearchParams_toString
                      [("grant_type", "client_credentials");
                       ("client_id", apiKey);
                       ("client_secret", apiSecret)]);
     headers := {[ "Content-Type" :=
                     JsStr "application/x-www-form-urlencoded" ]};
     timeout := timeoutMs;
     maxRedirects := None;
     validateAll := false |}.

(** [e?.response?.data ?? e?.message ?? "Failed to authenticate with
    Amadeus"]; the message of an [Error] is a string, so the last
    alternative is never taken. *)
Definition authDetail (e : Thrown) : JsValue :=
  match responseOf e with
  | Some r => if Js.nullish (data r) then JsStr (messageOf e) else data r
  | None => JsStr (messageOf e)
  end.

Definition getAmadeusToken (apiKey apiSecret serviceName : string)
    (timeoutMs : option Z) : M JsValue :=
  let timeoutMs := match timeoutMs with Some t => t | None => 10000 end in
  tryCatch
    (resp ← axios_request (tokenRequest apiKey apiSecret serviceName timeoutMs);
     if negb (Js.truthy (data resp))
        || negb (Js.truthy (Js.getProp (data resp) "access_token"))
     then throw (JsError "No access_token in Amadeus response" None)
     else ret (Js.getProp (data resp) "access_token"))
    (fun e =>
       throw (JsError ("Amadeus auth error: " +:+ textOf (authDetail e)) None)).

(** *** RequestForwarder *)

(** [{...headers, Authorization: `Bearer ${token}`, "Content-Type":
    contentType}] *)
Definition mergeHeaders (callerHeaders : JsValue) (token : JsValue)
    (contentType : string) : gmap string JsValue :=
  <[ "Content-Type" := JsStr contentType ]>
    (<[ "Authorization" := JsStr ("Bearer " +:+ ToString token) ]>
       (list_to_map (Js.ownProps callerHeaders))).

Definition mainRequest (a : ForwardArgs) (token : JsValue) : AxiosConfig :=
  {| method := fmethod a;
     url := "https://" +:+ serviceName a +:+ ".api.amadeus.com" +:+ path a;
     params := query a;
     body := fbody a;
     headers := mergeHeaders (fheaders a) token (contentType a);
     timeout := timeoutMs a;
     maxRedirects := Some 3;
     validateAll := true |}.

(** [forwardAmadeus] of the per-endpoint server. *)
Definition forwardAmadeus (a : ForwardArgs) : M ForwardResult :=
  token ← getAmadeusToken (apiKey a) (apiSecret a) (serviceName a)
             (Some (timeoutMs a));
  response ← axios_request (mainRequest a token);
  let payload := textOf (data response) in
  ret {| payload := payload; fwdIsError := 400 <=? status response |}.

(** *** Tool handlers *)

(** [{ error: e?.message || "Unknown error" }] *)
Definition errorObject (e : Thrown) : JsValue :=
  JsObj [("error",
          JsStr (if String.eqb (messageOf e) "" then "Unknown error"
                 else messageOf e))].

(** The [catch] of [amadeus.request]. *)
Definition forwardingError (e : Thrown) : ToolResult :=
  let status :=
    match responseOf e with
    | Some r => status r
    | None => 500
    end in
  let data :=
    match responseOf e with
    | Some r => if Js.nullish (data r) then errorObject e else data r
    | None => errorObject e
    end in
  {| text := "Forwarding error (" +:+ Js.decimal status +:+ "): "
             +:+ textOf data;
     isError := true |}.

(** The handler of [amadeus.request] in [src/index.js], which forwards
    in line. *)
Definition amadeusRequestHandler (input : JsValue) : M ToolResult :=
  a ← lift (RequestSchema_parse input);
  token ← getAmadeusToken (apiKey a) (apiSecret a) (serviceName a)
             (Some (timeoutMs a));
  tryCatch
    (response ← axios_request (mainRequest a token);
     ret {| text := textOf (data response);
            isError := 400 <=? status response |})
    (fun e => ret (forwardingError e)).

(** The handler of a tool with a fixed method and path in the
    per-endpoint server. *)
Definition fixedPathHandler (m p : string) (input : JsValue) : M ToolResult :=
  args ← lift (normalizeBase input);
  r ← forwardAmadeus (withRoute args m p);
  ret {| text := payload r; isError := fwdIsError r |}.

Definition timeoutOr (t : option Z) : Z :=
  match t with Some z => z | None => 10000 end.

(** What the token provider makes of the answer of the token endpoint. *)
Definition tokenOutcome (o : NetOutcome) : Thrown + JsValue :=
  match o with
  | NetFailure msg => inl (JsError ("Amadeus auth error: " +:+ msg) None)
  | NetResponse st d =>
      if (200 <=? st) && (st <? 300) then
        if Js.truthy d && Js.truthy (Js.getProp d "access_token")
        then inr (Js.getProp d "access_token")
        else inl (JsError
                    "Amadeus auth error: No access_token in Amadeus response"
                    None)
      else
        inl (JsError
               ("Amadeus auth error: "
                +:+ (if Js.nullish d
                     then "Request failed with status code " +:+ Js.decimal st
                     else textOf d))
               None)
  end.

End Server.

(** ** A runtime to run the model on examples

    Serialisation covers what the examples need: strings without escapes,
    integers, booleans, [null], arrays and objects. *)

Module Sample.

Definition quote : ascii := Ascii false true false false false true false false.

Definition quoted (s : string) : string :=
  String quote (s +:+ String quote EmptyString).

Fixpoint stringify (v : JsValue) : string :=
  match v with
  | JsUndefined | JsNull => "null"
  | JsBool true => "true"
  | JsBool false => "false"
  | JsNum (NumInt z) => Js.decimal z
  | JsNum (NumFrac f _ _) => Js.decimal f
  | JsStr s => quoted s
  | JsArr items =>
      "[" +:+ JsString.join "," (map stringify items) +:+ "]"
  | JsObj props =>
      "{" +:+ JsString.join ","
                (map (fun kv => quoted kv.1 +:+ ":" +:+ stringify kv.2) props)
      +:+ "}"
  end.

Definition toString (v : JsValue) : string :=
  match v with
  | JsStr s => s
  | JsUndefined => "undefined"
  | JsObj _ => "[object Object]"
  | _ => stringify v
  end.

Definition formEncode (fields : list (string * string)) : string :=
  JsString.join "&" (map (fun kv => kv.1 +:+ "=" +:+ kv.2) fields).

(** The token endpoint answers the first request, the resource endpoint
    the second. *)
Definition twoStep (tokenAnswer mainAnswer : NetOutcome)
  : list AxiosConfig -> AxiosConfig -> NetOutcome :=
  fun tr _ => match tr with [] => tokenAnswer | _ => mainAnswer end.

Definition tokenOk : NetOutcome :=
  NetResponse 200 (JsObj [("access_token", JsStr "abc")]).

Definition input : JsValue :=
  JsObj [("serviceName", JsStr "test"); ("apiKey", JsStr "key");
         ("apiSecret", JsStr "secret"); ("method", JsStr "get");
         ("path", JsStr "/v2/shopping/flight-offers");
         ("headers", JsObj [("X-Trace", JsStr "1")])].

End Sample.

(** ** Inputs and networks of the examples *)

Module Scenario.

Definition args : ForwardArgs :=
{| serviceName := "test"; apiKey := "key"; apiSecret := "secret";
   fmethod := "GET"; path := "/v2/shopping/flight-offers";
   query := JsObj []; fbody := JsUndefined;
   fheaders := JsObj [("X-Trace", JsStr "1")];
   contentType := "application/json"; timeoutMs := 15000 |}.

Definition notFound : NetOutcome :=
NetResponse 404 (JsObj [("error", JsStr "not found")]).

Definition unauthorized : NetOutcome :=
NetResponse 401 (JsObj [("error", JsStr "invalid_client")]).

Definition refused : NetOutcome := NetFailure "connect ECONNREFUSED".

Definition getToken (net : list AxiosConfig -> AxiosConfig -> NetOutcome) :=
getAmadeusToken net Sample.stringify Sample.formEncode
  "key" "secret" "test" (Some 15000).

Definition forward (net : list AxiosConfig -> AxiosConfig -> NetOutcome) :=
forwardAmadeus net Sample.stringify Sample.toString Sample.formEncode.

Definition requestHandler
  (net : list AxiosConfig -> AxiosConfig -> NetOutcome) :=
amadeusRequestHandler net Sample.stringify Sample.toString Sample.formEncode.

Definition fixedHandler (net : list AxiosConfig -> AxiosConfig -> NetOutcome) :=
fixedPathHandler net Sample.stringify Sample.toString Sample.formEncode.

End Scenario.

Definition inputWithAuthorization : JsValue :=
  JsObj [("serviceName", JsStr "test"); ("apiKey", JsStr "key");
         ("apiSecret", JsStr "secret"); ("method", JsStr "GET");
         ("path", JsStr "/v2/shopping/flight-offers");
         ("headers", JsObj [("AUTHORIZATION", JsStr "Bearer forged")])].

Definition inputWithTimeout (t : JsValue) : JsValue :=
  JsObj [("serviceName", JsStr "test"); ("apiKey", JsStr "key");
         ("apiSecret", JsStr "secret"); ("timeoutMs", t)].

(** The checks [normalizeBase] makes before it looks at [timeoutMs]. *)
Definition earlierChecksPass (input : JsValue) : Prop :=
  (exists s, ensureString (Js.getProp input "serviceName") "serviceName" = inr s)
  /\ (exists s, ensureString (Js.getProp input "apiKey") "apiKey" = inr s)
  /\ (exists s, ensureString (Js.getProp input "apiSecret") "apiSecret" = inr s)
  /\ assertNoAuthHeader (objectOrEmpty (Js.getProp input "headers")) = inr tt.

(** [Number.isInteger(v) ? v : 15000] *)
Definition timeoutOf (v : JsValue) : Z :=
  match v with
  | JsNum (NumInt z) => z
  | _ => 15000
  end.

(** ** encodeURIComponent, on 8-bit code units

    The characters [A-Z a-z 0-9 - _ . ! ~ * ' ( )] stay; every other code
    unit is written as the [%XX] of each byte of its UTF-8 encoding. *)

Definition isUnreserved (c : ascii) : bool :=
  let n := N_of_ascii c in
  ((65 <=? n) && (n <=? 90) || (97 <=? n) && (n <=? 122)
   || (48 <=? n) && (n <=? 57))%N
  || JsString.includes c "-_.!~*'()".

Definition hexDigit (n : N) : ascii :=
  if (n <? 10)%N then ascii_of_N (48 + n) else ascii_of_N (55 + n).

Definition percentByte (b : N) : string :=
  String "%" (String (hexDigit (b / 16)) (String (hexDigit (b mod 16)) "")).

Definition encodeChar (c : ascii) : string :=
  let n := N_of_ascii c in
  if isUnreserved c then String c ""
  else if (n <? 128)%N then percentByte n
  else percentByte (192 + n / 64) +:+ percentByte (128 + n mod 64).

Fixpoint encodeURIComponent (s : string) : string :=
  match s with
  | EmptyString => EmptyString
  | String c s' => encodeChar c +:+ encodeURIComponent s'
  end.

(** ** Tools that take an identifier, and tools that read the environment *)

(** What [getEnvAuth] returns. *)
Record Credentials : Type := {
  c_serviceName : string;
  c_apiKey : string;
  c_apiSecret : string
}.

(** [process.env.NAME || fallback] *)
Definition envOr (v : option string) (fallback : string) : string :=
  match v with
  | Some s => if String.eqb s "" then fallback else s
  | None => fallback
  end.

Definition missingCredentialsMessage : string :=
  "Missing AMADEUS_API_KEY or AMADEUS_API_SECRET in environment".

(** [getEnvAuth] of the server that reads its credentials from the
    environment; [env] is [process.env]. *)
Definition getEnvAuth (env : gmap string string) : Thrown + Credentials :=
  let serviceName :=
    envOr (env !! "AMADEUS_SERVICE_NAME") (envOr (env !! "AMADEUS_ENV") "test") in
  let apiKey := env !! "AMADEUS_API_KEY" in
  let apiSecret := env !! "AMADEUS_API_SECRET" in
  match apiKey, apiSecret with
  | Some k, Some s =>
      if String.eqb k "" || String.eqb s ""
      then inl (JsError missingCredentialsMessage None)
      else inr {| c_serviceName := serviceName; c_apiKey := k;
                  c_apiSecret := s |}
  | _, _ => inl (JsError missingCredentialsMessage None)
  end.

Section MoreTools.

Variable network : list AxiosConfig -> AxiosConfig -> NetOutcome.
Variable JSON_stringify : JsValue -> string.
Variable ToString : JsValue -> string.
Variable URLSearchParams_toString : list (string * string) -> string.

(** A tool of the per-endpoint server whose path holds an identifier
    taken from the input: [pre] and [post] are the text of the path before
    and after [encodeURIComponent(id)]. *)
Definition byIdHandler (m idName pre post : string) (input : JsValue)
  : M ToolResult :=
  args ← lift (normalizeBase input);
  id ← lift (ensureString (Js.getProp input idName) idName);
  let path := pre +:+ encodeURIComponent id +:+ post in
  r ← forwardAmadeus network JSON_stringify ToString URLSearchParams_toString
        (withRoute args m path);
  ret {| text := payload r; isError := fwdIsError r |}.

(** [amadeus.v1.booking.flight-orders.by-id] *)
Definition flightOrderByIdHandler : JsValue -> M ToolResult :=
  byIdHandler "GET" "flightOrderId" "/v1/booking/flight-orders/" "".

(** [amadeus.v1.ordering.transfer-orders.cancellation] *)
Definition transferOrderCancellationHandler : JsValue -> M ToolResult :=
  byIdHandler "POST" "transferOrderId" "/v1/ordering/transfer-orders/"
    "/transfers/cancellation".

(** [amadeus.v3.shopping.hotel-offers.by-id] *)
Definition hotelOfferByIdHandler : JsValue -> M ToolResult :=
  byIdHandler "GET" "hotelOfferId" "/v3/shopping/hotel-offers/" "".

(** A [GET] tool of the server that reads its credentials from the
    environment, after [const { timeoutMs, ...query } = input]: the
    integer [timeoutMs] of the input and the rest of it. *)
Definition envQueryHandler (env : gmap string string) (m p : string)
    (timeoutMs : Z) (query : JsValue) : M ToolResult :=
  auth ← lift (getEnvAuth env);
  r ← forwardAmadeus network JSON_stringify ToString URLSearchParams_toString
        {| serviceName := c_serviceName auth; apiKey := c_apiKey auth;
           apiSecret := c_apiSecret auth; fmethod := m; path := p;
           query := query; fbody := JsUndefined; fheaders := JsObj [];
           contentType := "application/json"; timeoutMs := timeoutMs |};
  ret {| text := payload r; isError := fwdIsError r |}.

End MoreTools.

(** ** The call of a registered tool

    [McpServer] awaits the callback of the tool inside a [try]: what the
    callback returns is the result of the call, and what it throws becomes
    the result [{ content: [{ type: "text", text: error.message }],
    isError: true }]. *)
Definition callTool (handler : JsValue -> M ToolResult) (input : JsValue)
  : M ToolResult :=
  tryCatch (handler input)
    (fun e => ret {| text := messageOf e; isError := true |}).

(** The methods [RequestSchema] admits. *)
Definition METHODS : list string := ["GET"; "POST"; "PUT"; "PATCH"; "DELETE"].

(** The segments of an accepted path: an empty first segment, then three
    to six non-empty slash-free segments. *)
Definition pathShape (xs : list string) : bool :=
  match xs with
  | EmptyString :: rest =>
      forallb JsString.isSegment rest
      && (3 <=? length rest)%nat && (length rest <=? 6)%nat
  | _ => false
  end.

(** [k in obj], for own properties. *)
Definition hasKey (k : string) (props : list (string * JsValue)) : bool :=
  existsb (fun kv => String.eqb kv.1 k) props.

(** The request [cfg] goes to an allowlisted path of the host of the
    service [sn]. *)
Definition toAllowedPath (sn : string) (cfg : AxiosConfig) : Prop :=
  exists P, url cfg = "https://" +:+ sn +:+ ".api.amadeus.com" +:+ P
            /\ pathIsAllowed P = true.

(** The same, with a path that holds neither [?] nor [#]. *)
Definition toPlainAllowedPath (sn : string) (cfg : AxiosConfig) : Prop :=
  exists P, url cfg = "https://" +:+ sn +:+ ".api.amadeus.com" +:+ P
            /\ pathIsAllowed P = true /\ hasQueryOrFragment P = false.

(** * Theorems *)

(** ** Facts about the string primitives *)

Section StringFacts.
Import JsString.

Lemma split_nonempty sep s : split sep s <> [].
Proof.
  destruct s as [|c s]; simpl; [discriminate|].
  destruct (Ascii.eqb c sep); [discriminate|].
  destruct (split sep s); discriminate.
Qed.

Lemma split_slashFree x : slashFree x = true -> split "/" x = [x].
Proof.
  induction x as [|c x IH]; simpl; [reflexivity|].
  intros [Hc Hx]%andb_true_iff.
  apply negb_true_iff in Hc. rewrite Hc, (IH Hx). reflexivity.
Qed.

Lemma split_app_sep a b :
  split "/" (a +:+ String "/" b) = split "/" a ++ split "/" b.
Proof.
  induction a as [|c a IH]; simpl; [reflexivity|].
  destruct (Ascii.eqb c "/"); rewrite IH; [reflexivity|].
  pose proof (split_nonempty "/" a) as Hne.
  destruct (split "/" a); [congruence|reflexivity].
Qed.

Lemma split_all_slashFree s :
  Forall (fun x => slashFree x = true) (split "/" s).
Proof.
  induction s as [|c s IH]; simpl; [repeat constructor|].
  destruct (Ascii.eqb c "/") eqn:Hc; [constructor; [reflexivity|assumption]|].
  destruct (split "/" s) as [|x xs]; [repeat constructor; simpl; by rewrite Hc|].
  inversion IH; subst. constructor; [simpl; rewrite Hc; assumption|assumption].
Qed.

Lemma join_split s : join "/" (split "/" s) = s.
Proof.
  induction s as [|c s IH]; simpl; [reflexivity|].
  destruct (Ascii.eqb_spec c "/") as [->|Hc].
  - pose proof (split_nonempty "/" s) as Hne.
    simpl. destruct (split "/" s); [congruence|]. by subst s.
  - pose proof (split_nonempty "/" s) as Hne.
    destruct (split "/" s) as [|x [|y xs]]; [congruence| |]; by subst s.
Qed.

(** A string is one slash-free segment, or a first segment, a slash and
    a remainder. *)
Lemma split_cases s :
  (slashFree s = true /\ split "/" s = [s]) \/
  (exists x s', slashFree x = true /\ s = x +:+ String "/" s'
                /\ split "/" s = x :: split "/" s').
Proof.
  induction s as [|c s IH]; [left; split; reflexivity|].
  simpl. destruct (Ascii.eqb_spec c "/") as [->|Hc].
  - right. exists EmptyString, s. repeat split; reflexivity.
  - destruct IH as [[Hs Hsp]|(x & s' & Hx & -> & Hsp)].
    + left. rewrite Hs, Hsp. split; reflexivity.
    + right. exists (String c x), s'. rewrite Hsp. simpl.
      apply Ascii.eqb_neq in Hc. rewrite Hc, Hx. repeat split; reflexivity.
Qed.

Lemma split_join l :
  l <> [] -> Forall (fun x => slashFree x = true) l ->
  split "/" (join "/" l) = l.
Proof.
  induction l as [|x l IH]; [congruence|]. intros _ Hall.
  inversion Hall as [|? ? Hx Hl]; subst.
  destruct l as [|y l]; [simpl; by apply split_slashFree|].
  change (join "/" (x :: y :: l)) with (x +:+ String "/" (join "/" (y :: l))).
  rewrite split_app_sep, split_slashFree by assumption.
  rewrite IH by (congruence || assumption). reflexivity.
Qed.

Lemma isSegment_slashFree x : isSegment x = true -> slashFree x = true.
Proof. destruct x; [discriminate|tauto]. Qed.

Lemma slashFree_includes x : slashFree x = negb (includes "/" x).
Proof.
  induction x as [|c x IH]; simpl; [reflexivity|].
  rewrite IH, negb_orb. reflexivity.
Qed.

Lemma eqb_slashFree x t :
  slashFree t = true -> String.eqb x t = true -> slashFree x = true.
Proof. intros Ht ->%String.eqb_eq. exact Ht. Qed.

End StringFacts.

(** ** The regular expression of a template matches segment by segment *)

Section MatcherFacts.
Import JsString RegExp.
Local Arguments Ascii.eqb : simpl never.

Lemma append_cons c a b : String c a +:+ b = String c (a +:+ b).
Proof. reflexivity. Qed.

Lemma append_nil_l b : EmptyString +:+ b = b.
Proof. reflexivity. Qed.

(** With [^] in front no later position can start a match. *)
Lemma searchFrom_anchored r s : searchFrom (BeginInput :: r) s = false.
Proof. induction s as [|c s IH]; simpl; [reflexivity|exact IH]. Qed.

Lemma test_anchored r s : test (BeginInput :: r) s = matchHere r true s.
Proof. unfold test. rewrite searchFrom_anchored. simpl. by rewrite orb_false_r. Qed.

(** A literal segment at the end of the expression. *)
Lemma lits_end t b s : matchHere (lits t ++ [EndInput]) b s = String.eqb s t.
Proof.
  revert b s. induction t as [|a t IH]; intros b [|c s]; simpl; try reflexivity.
  rewrite IH. by destruct (Ascii.eqb c a).
Qed.

(** A literal segment followed by a slash. *)
Lemma lits_slash t r b x s' :
  slashFree t = true -> slashFree x = true ->
  matchHere (lits t ++ Lit "/" :: r) b (x +:+ String "/" s')
  = String.eqb x t && matchHere r false s'.
Proof.
  revert b x. induction t as [|a t IH]; intros b [|c x]; simpl; intros Ht Hx.
  - reflexivity.
  - apply andb_true_iff in Hx as [Hc _]. apply negb_true_iff in Hc.
    rewrite ?append_cons, ?Hc. simpl. rewrite ?Hc. reflexivity.
  - apply andb_true_iff in Ht as [Ha _]. apply negb_true_iff in Ha.
    rewrite ?append_nil_l. simpl. rewrite (Ascii.eqb_sym "/" a), Ha. reflexivity.
  - apply andb_true_iff in Ht as [_ Ht]. apply andb_true_iff in Hx as [_ Hx].
    rewrite ?append_cons. simpl. rewrite IH by assumption.
    by destruct (Ascii.eqb c a).
Qed.

Lemma lits_slash_none t r b s :
  slashFree s = true -> matchHere (lits t ++ Lit "/" :: r) b s = false.
Proof.
  revert b s. induction t as [|a t IH]; intros b [|c s]; simpl; try reflexivity.
  - intros [Hc _]%andb_true_iff. apply negb_true_iff in Hc.
    by rewrite Hc.
  - intros [_ Hs]%andb_true_iff. rewrite IH by assumption. apply andb_false_r.
Qed.

(** A placeholder at the end of the expression. *)
Lemma plus_end b s : matchHere [NotSlashPlus; EndInput] b s = isSegment s.
Proof.
  induction s as [|c s IH]; [reflexivity|].
  change (matchHere [NotSlashPlus; EndInput] b (String c s))
    with (negb (Ascii.eqb c "/")
          && (matchHere [NotSlashPlus; EndInput] b s
              || matchHere [EndInput] false s)).
  rewrite IH. simpl. destruct (Ascii.eqb c "/"); [reflexivity|].
  destruct s as [|d s]; simpl; [reflexivity|]. by rewrite orb_false_r.
Qed.

(** A placeholder followed by a slash. *)
Lemma plus_slash r b x s' :
  slashFree x = true ->
  matchHere (NotSlashPlus :: Lit "/" :: r) b (x +:+ String "/" s')
  = isSegment x && matchHere r false s'.
Proof.
  induction x as [|c x IH]; [reflexivity|].
  intros Hsf. simpl in Hsf. apply andb_true_iff in Hsf as [Hc Hx].
  rewrite append_cons.
  change (matchHere (NotSlashPlus :: Lit "/" :: r) b
            (String c (x +:+ String "/" s')))
    with (negb (Ascii.eqb c "/")
          && (matchHere (NotSlashPlus :: Lit "/" :: r) b (x +:+ String "/" s')
              || matchHere (Lit "/" :: r) false (x +:+ String "/" s'))).
  rewrite Hc, IH by assumption.
  change (isSegment (String c x)) with (negb (Ascii.eqb c "/") && slashFree x).
  rewrite Hc, Hx. destruct x as [|d x]; [reflexivity|].
  simpl in Hx. apply andb_true_iff in Hx as [Hd Hx'].
  change (isSegment (String d x)) with (negb (Ascii.eqb d "/") && slashFree x).
  rewrite Hd, Hx'. apply negb_true_iff in Hd.
  rewrite append_cons. simpl. rewrite Hd. simpl.
  by rewrite orb_false_r.
Qed.

Lemma plus_slash_none r b s :
  slashFree s = true -> matchHere (NotSlashPlus :: Lit "/" :: r) b s = false.
Proof.
  induction s as [|c s IH]; [reflexivity|].
  intros Hsf. simpl in Hsf. apply andb_true_iff in Hsf as [Hc Hs].
  change (matchHere (NotSlashPlus :: Lit "/" :: r) b (String c s))
    with (negb (Ascii.eqb c "/")
          && (matchHere (NotSlashPlus :: Lit "/" :: r) b s
              || matchHere (Lit "/" :: r) false s)).
  rewrite IH by assumption. destruct s as [|d s]; simpl; [apply andb_false_r|].
  simpl in Hs. apply andb_true_iff in Hs as [Hd _]. apply negb_true_iff in Hd.
  rewrite Hd. apply andb_false_r.
Qed.

Lemma segToks_end t b s :
  matchHere (segToks t ++ [EndInput]) b s = segAccept t s.
Proof.
  unfold segToks, segAccept. destruct (startsWith ":" t).
  - apply plus_end.
  - apply lits_end.
Qed.

Lemma segToks_slash t r b x s' :
  slashFree t = true -> slashFree x = true ->
  matchHere (segToks t ++ Lit "/" :: r) b (x +:+ String "/" s')
  = segAccept t x && matchHere r false s'.
Proof.
  unfold segToks, segAccept. destruct (startsWith ":" t); intros Ht Hx.
  - by apply plus_slash.
  - by apply lits_slash.
Qed.

Lemma segToks_slash_none t r b s :
  slashFree s = true -> matchHere (segToks t ++ Lit "/" :: r) b s = false.
Proof.
  unfold segToks. destruct (startsWith ":" t); intros Hs.
  - by apply plus_slash_none.
  - by apply lits_slash_none.
Qed.

Lemma segAccept_slashFree t x :
  slashFree t = true -> segAccept t x = true -> slashFree x = true.
Proof.
  unfold segAccept. destruct (startsWith ":" t); intros Ht H.
  - by apply isSegment_slashFree.
  - by apply (eqb_slashFree x t).
Qed.

(** The expression built from the segments [ts], anchored at the end,
    accepts exactly the strings whose segments match [ts] one by one. *)
Theorem matchHere_segments ts :
  ts <> [] -> Forall (fun t => slashFree t = true) ts ->
  forall b s,
    matchHere (toks ts ++ [EndInput]) b s = segmentsMatch ts (split "/" s).
Proof.
  induction ts as [|t ts IH]; [congruence|]. intros _ Hall b s.
  inversion Hall as [|? ? Ht Hts]; subst.
  destruct ts as [|t' ts].
  - simpl toks. rewrite segToks_end.
    destruct (split_cases s) as [[Hs ->]|(x & s' & Hx & -> & ->)].
    + simpl. by rewrite andb_true_r.
    + pose proof (split_nonempty "/" s') as Hne.
      destruct (split "/" s') as [|y ys]; [congruence|]. simpl.
      rewrite andb_false_r.
      destruct (segAccept t (x +:+ String "/" s')) eqn:Hacc; [|reflexivity].
      apply (segAccept_slashFree _ _ Ht) in Hacc.
      rewrite slashFree_includes in Hacc. apply negb_true_iff in Hacc.
      clear -Hacc. exfalso. induction x as [|c x IHx]; simpl in Hacc.
      * discriminate.
      * apply orb_false_iff in Hacc as [_ Hacc]. auto.
  - change (toks (t :: t' :: ts)) with (segToks t ++ Lit "/" :: toks (t' :: ts)).
    rewrite <- app_assoc, <- app_comm_cons.
    destruct (split_cases s) as [[Hs ->]|(x & s' & Hx & -> & ->)].
    + rewrite segToks_slash_none by assumption. simpl. by rewrite andb_false_r.
    + rewrite segToks_slash by assumption.
      rewrite IH by (congruence || assumption). reflexivity.
Qed.

End MatcherFacts.

(** ** pathIsAllowed against its segment-wise reading *)

Section PathMatcherFacts.
Import JsString RegExp.

Lemma existsb_ext_In {A} (f g : A -> bool) (l : list A) :
  (forall x, In x l -> f x = g x) -> existsb f l = existsb g l.
Proof.
  induction l as [|a l IH]; [reflexivity|]. intros H. simpl.
  rewrite (H a) by (left; reflexivity).
  rewrite IH by (intros x Hx; apply H; right; exact Hx). reflexivity.
Qed.

Lemma has_In l x : has l x = true <-> In x l.
Proof.
  unfold has. rewrite existsb_exists. split.
  - intros (y & Hy & ->%String.eqb_eq). exact Hy.
  - intros H. exists x. split; [exact H|apply String.eqb_refl].
Qed.

(** Every template of the allowlist compiles, to the expression of its
    segments between [^] and [$]. *)
Lemma compile_template p :
  In p ALLOWED_PATHS -> includes ":" p = true ->
  compile (regexSource p)
  = Some (BeginInput :: toks (split "/" p) ++ [EndInput]).
Proof.
  unfold ALLOWED_PATHS. simpl In. intros H Hc.
  repeat (destruct H as [<-|H]; [first [discriminate Hc|vm_compute; reflexivity]|]).
  destruct H.
Qed.

Lemma templateAccepts_spec p s :
  In p ALLOWED_PATHS ->
  templateAccepts p s
  = includes ":" p && segmentsMatch (split "/" p) (split "/" s).
Proof.
  intros Hp. unfold templateAccepts.
  destruct (includes ":" p) eqn:Hc; [|reflexivity].
  cbn [negb andb]. rewrite (compile_template p Hp Hc), test_anchored.
  apply matchHere_segments; [apply split_nonempty|apply split_all_slashFree].
Qed.

Theorem pathIsAllowed_spec s :
  pathIsAllowed s
  = has ALLOWED_PATHS s || existsb (fun p => templateMatch p s) ALLOWED_PATHS.
Proof.
  unfold pathIsAllowed. destruct (has ALLOWED_PATHS s); [reflexivity|].
  cbn [orb]. apply existsb_ext_In. intros p Hp. by apply templateAccepts_spec.
Qed.

Lemma pathIsAllowed_true_iff s :
  pathIsAllowed s = true <->
  In s ALLOWED_PATHS \/
  exists p, In p ALLOWED_PATHS /\ templateMatch p s = true.
Proof.
  rewrite pathIsAllowed_spec, orb_true_iff, has_In, existsb_exists. tauto.
Qed.

(** The three templates, spelled out. *)
Lemma templates_only s :
  existsb (fun p => templateMatch p s) ALLOWED_PATHS
  = segmentsMatch ["";"v1";"booking";"flight-orders";":flightOrderId"]
      (split "/" s)
    || segmentsMatch ["";"v1";"ordering";"transfer-orders";":transferOrderId";
                      "transfers";"cancellation"] (split "/" s)
    || segmentsMatch ["";"v3";"shopping";"hotel-offers";":hotelOfferId"]
         (split "/" s).
Proof.
  unfold ALLOWED_PATHS, templateMatch.
  cbn [existsb includes Ascii.eqb Bool.eqb orb andb].
  change (split "/" "/v1/booking/flight-orders/:flightOrderId")
    with ["";"v1";"booking";"flight-orders";":flightOrderId"].
  change (split "/" "/v1/ordering/transfer-orders/:transferOrderId/transfers/cancellation")
    with ["";"v1";"ordering";"transfer-orders";":transferOrderId";
          "transfers";"cancellation"].
  change (split "/" "/v3/shopping/hotel-offers/:hotelOfferId")
    with ["";"v3";"shopping";"hotel-offers";":hotelOfferId"].
  generalize (split "/" s). intros l.
  repeat rewrite orb_false_r. by rewrite orb_assoc.
Qed.

End PathMatcherFacts.

Section SegmentFacts.
Import JsString.

Lemma segsEqb_eq xs es : segsEqb xs es = true <-> xs = es.
Proof.
  revert es. induction xs as [|x xs IH]; intros [|e es]; simpl;
    try (split; [discriminate|congruence]); [tauto|].
  rewrite andb_true_iff, String.eqb_eq, IH. split; [intros [-> ->]|intros [= -> ->]]; auto.
Qed.

Lemma split_inj s e : split "/" s = split "/" e -> s = e.
Proof. intros H. rewrite <- (join_split s), <- (join_split e). by rewrite H. Qed.

Lemma has_hasSegs s : has ALLOWED_PATHS s = hasSegs (split "/" s).
Proof.
  unfold has, hasSegs.
  change ALLOWED_SEGS with (map (split "/") ALLOWED_PATHS).
  induction ALLOWED_PATHS as [|e l IH]; [reflexivity|].
  cbn [existsb map]. rewrite IH. f_equal.
  destruct (String.eqb_spec s e) as [->|Hne].
  - symmetry. by apply segsEqb_eq.
  - symmetry. apply not_true_iff_false. intros H%segsEqb_eq%split_inj. auto.
Qed.

Theorem pathIsAllowed_segs s :
  pathIsAllowed s = hasSegs (split "/" s) || templateSegs (split "/" s).
Proof. by rewrite pathIsAllowed_spec, templates_only, has_hasSegs. Qed.

Lemma split_join_concat l :
  l <> [] -> split "/" (join "/" l) = concat (map (split "/") l).
Proof.
  induction l as [|x l IH]; [congruence|]. intros _.
  destruct l as [|y l]; [simpl; by rewrite app_nil_r|].
  change (join "/" (x :: y :: l)) with (x +:+ String "/" (join "/" (y :: l))).
  rewrite split_app_sep, IH by congruence. reflexivity.
Qed.

Lemma split_includes_slash x :
  includes "/" x = true -> exists a b l, split "/" x = a :: b :: l.
Proof.
  intros H. destruct (split_cases x) as [[Hs _]|(a & s' & _ & _ & ->)].
  - rewrite slashFree_includes, H in Hs. discriminate.
  - pose proof (split_nonempty "/" s') as Hne.
    destruct (split "/" s') as [|b l]; [congruence|]. eauto.
Qed.

Lemma segmentsMatch_length ts xs :
  segmentsMatch ts xs = true -> length xs = length ts.
Proof.
  revert xs. induction ts as [|t ts IH]; intros [|x xs]; simpl;
    try discriminate; [reflexivity|].
  intros [_ H]%andb_true_iff. f_equal. by apply IH.
Qed.

Lemma segmentsMatch_substitute x ts :
  isSegment x = true ->
  segmentsMatch ts (map (fun seg => if startsWith ":" seg then x else seg) ts)
  = true.
Proof.
  intros Hx. induction ts as [|t ts IH]; [reflexivity|].
  cbn [map segmentsMatch]. rewrite IH, andb_true_r.
  unfold segAccept. destruct (startsWith ":" t); [exact Hx|apply String.eqb_refl].
Qed.

Lemma split_substitute p x :
  isSegment x = true ->
  split "/" (substitute p x)
  = map (fun seg => if startsWith ":" seg then x else seg) (split "/" p).
Proof.
  intros Hx. unfold substitute. apply split_join.
  - pose proof (split_nonempty "/" p). destruct (split "/" p); [congruence|discriminate].
  - pose proof (split_all_slashFree p) as Hall.
    induction Hall as [|t ts Ht _ IH]; constructor; [|exact IH].
    destruct (startsWith ":" t); [by apply isSegment_slashFree|exact Ht].
Qed.

End SegmentFacts.

(** Closes goals about the allowlist on a segment list whose shape is known. *)
Ltac seg_decide :=
  unfold hasSegs, templateSegs, ALLOWED_SEGS; cbn;
  rewrite ?andb_false_r, ?orb_false_r; cbn; try reflexivity.

Section PrefixFacts.

Lemma properPrefix_In s e : properPrefix s e -> In s (properPrefixes e).
Proof.
  revert s. induction e as [|c e IH]; intros s (t & Ht & Heq).
  - destruct s; [destruct t; [congruence|discriminate]|discriminate].
  - destruct s as [|d s]; [left; reflexivity|]. right.
    rewrite append_cons in Heq. injection Heq as <- Heq.
    apply in_map, IH. by exists t.
Qed.

Lemma prefixesChecked_true : prefixesChecked = true.
Proof. vm_compute. reflexivity. Qed.

End PrefixFacts.

(** ** Claims about the PathMatcher *)

(** C6: [pathIsAllowed] accepts every string that is a member of the
    allowlist set, and rejects every string that is neither a member nor
    matched by a template, segment by segment; in particular it rejects the
    empty string, an unknown endpoint, and each proper prefix of a literal
    entry that is not an entry itself: being a prefix grants nothing. *)
Theorem C6_exact_or_template_only :
  (forall p, In p ALLOWED_PATHS -> pathIsAllowed p = true)
  /\ (forall s,
        ~ In s ALLOWED_PATHS ->
        (forall p, In p ALLOWED_PATHS -> templateMatch p s = false) ->
        pathIsAllowed s = false)
  /\ pathIsAllowed "" = false
  /\ pathIsAllowed "/v1/unknown/endpoint" = false
  /\ (forall e s,
        In e ALLOWED_PATHS -> JsString.includes ":" e = false ->
        properPrefix s e -> ~ In s ALLOWED_PATHS ->
        pathIsAllowed s = false).
Proof.
  split; [|split; [|split; [|split]]].
  - intros p Hp. apply pathIsAllowed_true_iff. by left.
  - intros s Hs Ht. apply not_true_iff_false.
    intros [Hin|(p & Hp & Hm)]%pathIsAllowed_true_iff; [auto|].
    rewrite Ht in Hm by assumption. discriminate.
  - vm_compute. reflexivity.
  - vm_compute. reflexivity.
  - intros e s He Hlit Hpre Hnot.
    pose proof prefixesChecked_true as Hall. unfold prefixesChecked in Hall.
    rewrite forallb_forall in Hall. specialize (Hall e He).
    rewrite Hlit in Hall. cbn [orb] in Hall. rewrite forallb_forall in Hall.
    specialize (Hall s (properPrefix_In s e Hpre)).
    apply orb_true_iff in Hall as [Hhas|Hrej].
    + apply has_In in Hhas. contradiction.
    + by apply negb_true_iff in Hrej.
Qed.

Lemma C6_exact_or_template_only_witness :
  pathIsAllowed "/v1/shopping/seatmaps" = true
  /\ pathIsAllowed "/v1/shopping/flight-dates/2024" = false
  /\ pathIsAllowed "/v1/shopping/flight-offers/pric" = false.
Proof.
  destruct C6_exact_or_template_only as (Hin & Hnone & _ & _ & Hpre).
  split; [|split].
  - apply Hin. unfold ALLOWED_PATHS. simpl. tauto.
  - apply Hnone.
    + unfold ALLOWED_PATHS. simpl. intros H.
      repeat (destruct H as [H|H]; [discriminate H|]). exact H.
    + unfold ALLOWED_PATHS. simpl. intros p H.
      repeat (destruct H as [<-|H]; [vm_compute; reflexivity|]). destruct H.
  - apply (Hpre "/v1/shopping/flight-offers/pricing").
    + unfold ALLOWED_PATHS. simpl. tauto.
    + reflexivity.
    + exists "ing". split; [discriminate|reflexivity].
    + unfold ALLOWED_PATHS. simpl. intros H.
      repeat (destruct H as [H|H]; [discriminate H|]). exact H.
Defined.

Section TemplateFacts.
Import JsString.

Lemma template_cases p :
  In p ALLOWED_PATHS -> includes ":" p = true ->
  p = "/v1/booking/flight-orders/:flightOrderId"
  \/ p = "/v1/ordering/transfer-orders/:transferOrderId/transfers/cancellation"
  \/ p = "/v3/shopping/hotel-offers/:hotelOfferId".
Proof.
  unfold ALLOWED_PATHS. simpl In. intros H Hc.
  repeat (destruct H as [<-|H]; [first [discriminate Hc|tauto]|]).
  destruct H.
Qed.

(** Any segment put at the placeholder gives an accepted path. *)
Lemma substitute_accepted p x :
  In p ALLOWED_PATHS -> includes ":" p = true -> isSegment x = true ->
  pathIsAllowed (substitute p x) = true.
Proof.
  intros Hp Hc Hx. apply pathIsAllowed_true_iff. right. exists p.
  split; [exact Hp|]. unfold templateMatch.
  rewrite Hc, split_substitute by exact Hx. by apply segmentsMatch_substitute.
Qed.

Lemma substitute_slash_rejected p x :
  In p ALLOWED_PATHS -> includes ":" p = true -> includes "/" x = true ->
  pathIsAllowed (substitute p x) = false.
Proof.
  intros Hp Hc Hx. rewrite pathIsAllowed_segs. unfold substitute.
  rewrite split_join_concat
    by (pose proof (split_nonempty "/" p); destruct (split "/" p);
        [congruence|discriminate]).
  destruct (split_includes_slash x Hx) as (a & b & l & Hsp).
  destruct (template_cases p Hp Hc) as [->|[->| ->]];
    cbn [split Ascii.eqb Bool.eqb map startsWith concat app];
    rewrite Hsp; cbn [app]; try seg_decide.
  destruct l as [|c [|d l]]; seg_decide.
Qed.

Lemma extra_segments_rejected p x s more :
  In p ALLOWED_PATHS -> includes ":" p = true -> isSegment x = true ->
  more <> [] -> split "/" s = split "/" (substitute p x) ++ more ->
  pathIsAllowed s = false.
Proof.
  intros Hp Hc Hx Hmore Hs. rewrite pathIsAllowed_segs, Hs.
  rewrite split_substitute by exact Hx.
  destruct more as [|m more]; [congruence|].
  destruct (template_cases p Hp Hc) as [->|[->| ->]]; seg_decide.
Qed.

Lemma missing_segments_literal_only p x s more :
  In p ALLOWED_PATHS -> includes ":" p = true -> isSegment x = true ->
  more <> [] -> split "/" (substitute p x) = split "/" s ++ more ->
  pathIsAllowed s = has ALLOWED_PATHS s.
Proof.
  intros Hp Hc Hx Hmore Hs. rewrite pathIsAllowed_segs, has_hasSegs.
  rewrite split_substitute in Hs by exact Hx.
  revert Hs. generalize (split "/" s). intros l Hs.
  destruct (template_cases p Hp Hc) as [->|[->| ->]];
    cbn [split Ascii.eqb Bool.eqb map startsWith] in Hs;
    repeat (destruct l as [|? l];
            [try seg_decide
            |cbn [app] in Hs; first [discriminate Hs|injection Hs as <- Hs]]);
    try (destruct more; [congruence|discriminate Hs]).
Qed.

Lemma template_anchored p s :
  In p ALLOWED_PATHS ->
  length (split "/" s) <> length (split "/" p) -> templateAccepts p s = false.
Proof.
  intros Hp Hlen. rewrite templateAccepts_spec by exact Hp.
  destruct (segmentsMatch (split "/" p) (split "/" s)) eqn:Hm;
    [|apply andb_false_r].
  apply segmentsMatch_length in Hm. contradiction.
Qed.

End TemplateFacts.

(** C5, as stated, fails where segments are missing: dropping the
    placeholder segment of [/v1/booking/flight-orders/:flightOrderId]
    leaves [/v1/booking/flight-orders], which the allowlist holds as a
    literal entry, so [pathIsAllowed] accepts it. *)
Lemma C5_counterexample_missing_segment :
  In "/v1/booking/flight-orders/:flightOrderId" ALLOWED_PATHS
  /\ JsString.includes ":" "/v1/booking/flight-orders/:flightOrderId" = true
  /\ JsString.split "/"
       (substitute "/v1/booking/flight-orders/:flightOrderId" "ABC123")
     = JsString.split "/" "/v1/booking/flight-orders" ++ ["ABC123"]
  /\ pathIsAllowed "/v1/booking/flight-orders" = true.
Proof.
  split; [unfold ALLOWED_PATHS; simpl; tauto|].
  repeat split; vm_compute; reflexivity.
Qed.

(** C5 (amended): for every allowlist template with a placeholder,
    [pathIsAllowed] accepts the path obtained by putting any non-empty
    slash-free segment at the placeholder; it rejects the path when the
    segment put there is empty or contains a slash, and when further
    segments follow the substituted path. The expression of a template
    accepts no candidate with another number of segments, so a candidate
    that lacks trailing segments of the substituted path is accepted exactly
    when it is itself a member of the allowlist. *)
Theorem C5_template_substitution :
  forall p,
    In p ALLOWED_PATHS -> JsString.includes ":" p = true ->
    (forall x, JsString.isSegment x = true ->
               pathIsAllowed (substitute p x) = true)
    /\ pathIsAllowed (substitute p "") = false
    /\ (forall x, JsString.includes "/" x = true ->
                  pathIsAllowed (substitute p x) = false)
    /\ (forall x s more,
          JsString.isSegment x = true -> more <> [] ->
          JsString.split "/" s = JsString.split "/" (substitute p x) ++ more ->
          pathIsAllowed s = false)
    /\ (forall x s more,
          JsString.isSegment x = true -> more <> [] ->
          JsString.split "/" (substitute p x) = JsString.split "/" s ++ more ->
          pathIsAllowed s = has ALLOWED_PATHS s)
    /\ (forall s,
          length (JsString.split "/" s) <> length (JsString.split "/" p) ->
          templateAccepts p s = false).
Proof.
  intros p Hp Hc. repeat split.
  - intros x Hx. by apply substitute_accepted.
  - destruct (template_cases p Hp Hc) as [->|[->| ->]]; vm_compute; reflexivity.
  - intros x Hx. by apply substitute_slash_rejected.
  - intros x s more Hx Hmore Hs. by apply (extra_segments_rejected p x s more).
  - intros x s more Hx Hmore Hs.
    by apply (missing_segments_literal_only p x s more).
  - intros s Hlen. by apply template_anchored.
Qed.

Lemma C5_template_substitution_witness :
  pathIsAllowed "/v1/booking/flight-orders/ABC123" = true
  /\ pathIsAllowed "/v1/booking/flight-orders/" = false
  /\ pathIsAllowed "/v1/booking/flight-orders/ABC/DEF" = false
  /\ pathIsAllowed "/v1/booking/flight-orders/ABC/extra" = false
  /\ pathIsAllowed "/v1/booking" = false
  /\ templateAccepts "/v1/booking/flight-orders/:flightOrderId"
       "/v1/booking/flight-orders" = false.
Proof.
  assert (Hp : In "/v1/booking/flight-orders/:flightOrderId" ALLOWED_PATHS)
    by (unfold ALLOWED_PATHS; simpl; tauto).
  destruct (C5_template_substitution
              "/v1/booking/flight-orders/:flightOrderId" Hp eq_refl)
    as (Hacc & Hempty & Hslash & Hextra & Hmiss & Hanch).
  split; [|split; [|split; [|split; [|split]]]].
  - apply (Hacc "ABC123"). reflexivity.
  - exact Hempty.
  - apply (Hslash "ABC/DEF"). reflexivity.
  - apply (Hextra "ABC" "/v1/booking/flight-orders/ABC/extra" ["extra"]);
      [reflexivity|discriminate|reflexivity].
  - rewrite (Hmiss "ABC" "/v1/booking" ["flight-orders"; "ABC"]);
      [reflexivity|reflexivity|discriminate|reflexivity].
  - apply Hanch. vm_compute. lia.
Defined.

Section QueryFacts.
Import JsString RegExp.

Lemma includes_split c s :
  c <> "/"%char -> includes c s = true ->
  exists x, In x (split "/" s) /\ includes c x = true.
Proof.
  intros Hc. induction s as [|d s IH]; [discriminate|].
  cbn [includes split]. intros H.
  pose proof (split_nonempty "/" s) as Hne.
  destruct (Ascii.eqb_spec d "/") as [->|Hd].
  - apply orb_true_iff in H as [Hdc|Hs].
    + apply Ascii.eqb_eq in Hdc. congruence.
    + destruct (IH Hs) as (x & Hx & Hcx). exists x. split; [by right|exact Hcx].
  - destruct (split "/" s) as [|seg segs]; [congruence|].
    apply orb_true_iff in H as [Hdc|Hs].
    + exists (String d seg). split; [by left|]. cbn [includes]. by rewrite Hdc.
    + destruct (IH Hs) as (x & [<-|Hx] & Hcx).
      * exists (String d seg). split; [by left|].
        cbn [includes]. rewrite Hcx. apply orb_true_r.
      * exists x. split; [by right|exact Hcx].
Qed.

Lemma hasQueryOrFragment_split s :
  hasQueryOrFragment s = true ->
  exists x, In x (split "/" s) /\ hasQueryOrFragment x = true.
Proof.
  unfold hasQueryOrFragment. intros [H|H]%orb_true_iff;
    apply includes_split in H; try discriminate;
    destruct H as (x & Hx & Hcx); exists x; rewrite Hcx;
    (split; [exact Hx|]); [reflexivity|apply orb_true_r].
Qed.

(** A segment holding [?] or [#] can only stand at a placeholder when the
    template itself has neither. *)
Lemma segmentsMatch_query ts xs x :
  segmentsMatch ts xs = true ->
  (forall t, In t ts -> hasQueryOrFragment t = false) ->
  In x xs -> hasQueryOrFragment x = true ->
  exists t, In (t, x) (combine ts xs) /\ startsWith ":" t = true.
Proof.
  revert xs. induction ts as [|t ts IH]; intros [|y xs]; simpl;
    try discriminate; [tauto|].
  intros [Hacc Hm]%andb_true_iff Hts [->|Hx] Hq.
  - exists t. split; [by left|]. unfold segAccept in Hacc.
    destruct (startsWith ":" t); [reflexivity|].
    apply String.eqb_eq in Hacc. subst x.
    rewrite Hts in Hq by (by left). discriminate.
  - destruct (IH xs Hm (fun t' Ht' => Hts t' (or_intror Ht')) Hx Hq)
      as (t' & Hin & Hst).
    exists t'. split; [by right|exact Hst].
Qed.

Lemma allowlist_without_query e :
  In e ALLOWED_PATHS -> hasQueryOrFragment e = false.
Proof.
  unfold ALLOWED_PATHS. simpl In. intros H.
  repeat (destruct H as [<-|H]; [vm_compute; reflexivity|]). destruct H.
Qed.

Lemma template_segments_without_query p t :
  In p ALLOWED_PATHS -> In t (split "/" p) -> hasQueryOrFragment t = false.
Proof.
  intros Hp Ht.
  assert (Hall : forallb (fun t => negb (hasQueryOrFragment t))
                   (split "/" p) = true).
  { revert Hp. unfold ALLOWED_PATHS. simpl In. intros H.
    repeat (destruct H as [<-|H]; [vm_compute; reflexivity|]). destruct H. }
  rewrite forallb_forall in Hall. by apply negb_true_iff, Hall.
Qed.

(** With [^] in front, only the match at position 0 counts. *)
Lemma pathIsAllowed_anchored s :
  pathIsAllowed s
  = has ALLOWED_PATHS s
    || existsb (fun p =>
                  includes ":" p
                  && matchHere (toks (split "/" p) ++ [EndInput]) true s)
         ALLOWED_PATHS.
Proof.
  unfold pathIsAllowed. destruct (has ALLOWED_PATHS s); [reflexivity|].
  cbn [orb]. apply existsb_ext_In. intros p Hp. unfold templateAccepts.
  destruct (includes ":" p) eqn:Hc; [|reflexivity]. cbn [negb andb].
  by rewrite (compile_template p Hp Hc), test_anchored.
Qed.

Lemma literal_with_suffix_rejected e c q :
  In e ALLOWED_PATHS -> includes ":" e = false ->
  c = "?"%char \/ c = "#"%char ->
  pathIsAllowed (e +:+ String c q) = false.
Proof.
  intros He Hlit Hc. rewrite pathIsAllowed_anchored.
  revert He Hlit. unfold ALLOWED_PATHS at 1. simpl In. intros He Hlit.
  repeat (destruct He as [<-|He];
          [first [discriminate Hlit
                 |destruct Hc as [->| ->]; vm_compute; reflexivity]|]).
  destruct He.
Qed.

End QueryFacts.

(** C1, as stated, fails: nothing is stripped. A query string appended
    after the slash of a template is taken for the placeholder segment, so
    the candidate is accepted although its path component is rejected; and
    a query string appended to an allowed literal path makes it rejected. *)
Lemma C1_counterexample_query_smuggling :
  pathComponent "/v1/booking/flight-orders/?x" = "/v1/booking/flight-orders/"
  /\ pathIsAllowed "/v1/booking/flight-orders/" = false
  /\ pathIsAllowed "/v1/booking/flight-orders/?x" = true
  /\ pathComponent "/v2/shopping/flight-offers?max=1" = "/v2/shopping/flight-offers"
  /\ pathIsAllowed "/v2/shopping/flight-offers" = true
  /\ pathIsAllowed "/v2/shopping/flight-offers?max=1" = false.
Proof. repeat split; vm_compute; reflexivity. Qed.

(** C1 (amended): [pathIsAllowed] strips nothing and matches the whole
    candidate, [?] and [#] being ordinary characters. A literal allowlist
    entry followed by a [?] or [#] suffix is rejected; a candidate holding
    [?] or [#] is accepted only through a template, with the [?] or [#]
    inside the segment that stands at the placeholder; and any non-empty
    slash-free segment, with or without [?] and [#], is accepted there. *)
Theorem C1_whole_candidate_matched :
  (forall e c q,
      In e ALLOWED_PATHS -> JsString.includes ":" e = false ->
      c = "?"%char \/ c = "#"%char ->
      pathIsAllowed (e +:+ String c q) = false)
  /\ (forall s,
        hasQueryOrFragment s = true -> pathIsAllowed s = true ->
        exists p t x,
          In p ALLOWED_PATHS /\ templateMatch p s = true
          /\ In (t, x) (combine (JsString.split "/" p) (JsString.split "/" s))
          /\ JsString.startsWith ":" t = true
          /\ hasQueryOrFragment x = true)
  /\ (forall p x,
        In p ALLOWED_PATHS -> JsString.includes ":" p = true ->
        JsString.isSegment x = true ->
        pathIsAllowed (substitute p x) = true).
Proof.
  split; [|split].
  - intros e c q. apply literal_with_suffix_rejected.
  - intros s Hq [Hin|(p & Hp & Hm)]%pathIsAllowed_true_iff.
    + rewrite (allowlist_without_query s Hin) in Hq. discriminate.
    + destruct (hasQueryOrFragment_split s Hq) as (x & Hx & Hqx).
      unfold templateMatch in Hm. apply andb_true_iff in Hm as [Hc Hm].
      destruct (segmentsMatch_query _ _ x Hm
                  (fun t Ht => template_segments_without_query p t Hp Ht)
                  Hx Hqx) as (t & Hin & Hst).
      exists p, t, x. unfold templateMatch. rewrite Hc, Hm. auto.
  - intros p x. apply substitute_accepted.
Qed.

Lemma C1_whole_candidate_matched_witness :
  pathIsAllowed "/v1/shopping/seatmaps?flight-orderId=1" = false
  /\ (exists p t x,
         In p ALLOWED_PATHS
         /\ templateMatch p "/v3/shopping/hotel-offers/A#b" = true
         /\ In (t, x) (combine (JsString.split "/" p)
                         (JsString.split "/" "/v3/shopping/hotel-offers/A#b"))
         /\ JsString.startsWith ":" t = true
         /\ hasQueryOrFragment x = true)
  /\ pathIsAllowed "/v3/shopping/hotel-offers/A#b" = true.
Proof.
  destruct C1_whole_candidate_matched as (Hlit & Htmpl & Hsub).
  split; [|split].
  - apply (Hlit "/v1/shopping/seatmaps" "?"%char "flight-orderId=1");
      [unfold ALLOWED_PATHS; simpl; tauto|reflexivity|by left].
  - apply Htmpl; vm_compute; reflexivity.
  - apply (Hsub "/v3/shopping/hotel-offers/:hotelOfferId" "A#b");
      [unfold ALLOWED_PATHS; simpl; tauto|reflexivity|reflexivity].
Defined.

(** ** Facts about the token provider and the forwarder *)

Section ServerFacts.

Variable network : list AxiosConfig -> AxiosConfig -> NetOutcome.
Variable JSON_stringify : JsValue -> string.
Variable ToString : JsValue -> string.
Variable URLSearchParams_toString : list (string * string) -> string.

Local Abbreviation getToken :=
  (getAmadeusToken network JSON_stringify URLSearchParams_toString).
Local Abbreviation tokenReq := (tokenRequest URLSearchParams_toString).
Local Abbreviation forward :=
  (forwardAmadeus network JSON_stringify ToString URLSearchParams_toString).
Local Abbreviation requestHandler :=
  (amadeusRequestHandler network JSON_stringify ToString
     URLSearchParams_toString).
Local Abbreviation fixedHandler :=
  (fixedPathHandler network JSON_stringify ToString URLSearchParams_toString).
Local Abbreviation mainReq := (mainRequest ToString).

Lemma getAmadeusToken_run ak sc sn tm tr :
  getToken ak sc sn tm tr
  = (tr ++ [tokenReq ak sc sn (timeoutOr tm)],
     tokenOutcome JSON_stringify
       (network tr (tokenReq ak sc sn (timeoutOr tm)))).
Proof.
  unfold getAmadeusToken, tryCatch, mbind, M_bind, bind, axios_request,
    throw, ret, tokenOutcome, authDetail, timeoutOr.
  destruct (network tr _) as [st d|msg]; cbn [validateAll tokenRequest orb];
    [|reflexivity].
  destruct ((200 <=? st) && (st <? 300)); cbn [data responseOf messageOf].
  - destruct (Js.truthy d); cbn [negb orb andb]; [|reflexivity].
    destruct (Js.truthy (Js.getProp d "access_token")); reflexivity.
  - destruct (Js.nullish d); reflexivity.
Qed.

(** The token endpoint answers with a 2xx status and a body that holds a
    non-empty [access_token]: that value is the token. *)
Lemma getAmadeusToken_obtained ak sc sn tm tr st d :
  network tr (tokenReq ak sc sn (timeoutOr tm)) = NetResponse st d ->
  200 <= st < 300 ->
  Js.truthy d = true ->
  Js.truthy (Js.getProp d "access_token") = true ->
  getToken ak sc sn tm tr
  = (tr ++ [tokenReq ak sc sn (timeoutOr tm)],
     inr (Js.getProp d "access_token")).
Proof.
  intros Hn Hst Hd Ht. rewrite getAmadeusToken_run, Hn. cbn [tokenOutcome].
  replace ((200 <=? st) && (st <? 300)) with true by (symmetry; lia).
  by rewrite Hd, Ht.
Qed.

Lemma getAmadeusToken_trace ak sc sn tm tr tr' r :
  getToken ak sc sn tm tr = (tr', r) ->
  tr' = tr ++ [tokenReq ak sc sn (timeoutOr tm)].
Proof. rewrite getAmadeusToken_run. by intros [= <- _]. Qed.

(** A failed token acquisition is an [Error] whose message starts with
    the marker of the token provider. *)
Lemma getAmadeusToken_error ak sc sn tm tr tr' e :
  getToken ak sc sn tm tr = (tr', inl e) ->
  exists detail, e = JsError ("Amadeus auth error: " +:+ detail) None.
Proof.
  rewrite getAmadeusToken_run. intros [= _ H]. revert H. unfold tokenOutcome.
  destruct (network tr _) as [st d|msg].
  - destruct ((200 <=? st) && (st <? 300)).
    + destruct (Js.truthy d && Js.truthy (Js.getProp d "access_token"));
        [discriminate|]. intros [= <-]. by eexists.
    + intros [= <-]. by eexists.
  - intros [= <-]. by eexists.
Qed.

Lemma forwardAmadeus_token_failure a tr tr' e :
  getToken (apiKey a) (apiSecret a) (serviceName a) (Some (timeoutMs a)) tr
  = (tr', inl e) ->
  forward a tr = (tr', inl e).
Proof.
  intros H. unfold forwardAmadeus, mbind, M_bind, bind. by rewrite H.
Qed.

Lemma forwardAmadeus_response a tr tr' token st d :
  getToken (apiKey a) (apiSecret a) (serviceName a) (Some (timeoutMs a)) tr
  = (tr', inr token) ->
  network tr' (mainReq a token) = NetResponse st d ->
  forward a tr
  = (tr' ++ [mainReq a token],
     inr {| payload := textOf JSON_stringify d; fwdIsError := 400 <=? st |}).
Proof.
  intros Ht Hn. unfold forwardAmadeus, mbind, M_bind, bind, axios_request.
  rewrite Ht, Hn. reflexivity.
Qed.

Lemma forwardAmadeus_transport_failure a tr tr' token msg :
  getToken (apiKey a) (apiSecret a) (serviceName a) (Some (timeoutMs a)) tr
  = (tr', inr token) ->
  network tr' (mainReq a token) = NetFailure msg ->
  forward a tr = (tr' ++ [mainReq a token], inl (JsError msg None)).
Proof.
  intros Ht Hn. unfold forwardAmadeus, mbind, M_bind, bind, axios_request.
  rewrite Ht, Hn. reflexivity.
Qed.

Lemma requestHandler_token_failure input a tr tr' e :
  RequestSchema_parse input = inr a ->
  getToken (apiKey a) (apiSecret a) (serviceName a) (Some (timeoutMs a)) tr
  = (tr', inl e) ->
  requestHandler input tr = (tr', inl e).
Proof.
  intros Hp H. unfold amadeusRequestHandler, mbind, M_bind, bind, lift.
  by rewrite Hp, H.
Qed.

Lemma requestHandler_response input a tr tr' token st d :
  RequestSchema_parse input = inr a ->
  getToken (apiKey a) (apiSecret a) (serviceName a) (Some (timeoutMs a)) tr
  = (tr', inr token) ->
  network tr' (mainReq a token) = NetResponse st d ->
  requestHandler input tr
  = (tr' ++ [mainReq a token],
     inr {| text := textOf JSON_stringify d; isError := 400 <=? st |}).
Proof.
  intros Hp Ht Hn.
  unfold amadeusRequestHandler, tryCatch, mbind, M_bind, bind, lift,
    axios_request.
  rewrite Hp, Ht, Hn. reflexivity.
Qed.

Lemma requestHandler_transport_failure input a tr tr' token msg :
  RequestSchema_parse input = inr a ->
  getToken (apiKey a) (apiSecret a) (serviceName a) (Some (timeoutMs a)) tr
  = (tr', inr token) ->
  network tr' (mainReq a token) = NetFailure msg ->
  requestHandler input tr
  = (tr' ++ [mainReq a token],
     inr {| text := "Forwarding error (500): "
                    +:+ JSON_stringify
                          (JsObj [("error",
                                   JsStr (if String.eqb msg ""
                                          then "Unknown error" else msg))]);
            isError := true |}).
Proof.
  intros Hp Ht Hn.
  unfold amadeusRequestHandler, tryCatch, mbind, M_bind, bind, lift,
    axios_request.
  rewrite Hp, Ht, Hn. reflexivity.
Qed.

Lemma callTool_run (handler : JsValue -> M ToolResult) input tr :
  callTool handler input tr
  = match handler input tr with
    | (tr', inl e) => (tr', inr {| text := messageOf e; isError := true |})
    | (tr', inr res) => (tr', inr res)
    end.
Proof. reflexivity. Qed.

Lemma fixedHandler_forward m p input args tr :
  normalizeBase input = inr args ->
  fixedHandler m p input tr
  = match forward (withRoute args m p) tr with
    | (tr', inl e) => (tr', inl e)
    | (tr', inr r) => (tr', inr {| text := payload r; isError := fwdIsError r |})
    end.
Proof.
  intros Hn. unfold fixedPathHandler, mbind, M_bind, bind, lift, ret.
  rewrite Hn. reflexivity.
Qed.

End ServerFacts.

(** ** Claims about the token provider and the forwarder *)

Section ServerClaims.

Variable network : list AxiosConfig -> AxiosConfig -> NetOutcome.
Variable JSON_stringify : JsValue -> string.
Variable ToString : JsValue -> string.
Variable URLSearchParams_toString : list (string * string) -> string.

Local Abbreviation getToken :=
  (getAmadeusToken network JSON_stringify URLSearchParams_toString).
Local Abbreviation tokenReq := (tokenRequest URLSearchParams_toString).
Local Abbreviation forward :=
  (forwardAmadeus network JSON_stringify ToString URLSearchParams_toString).
Local Abbreviation requestHandler :=
  (amadeusRequestHandler network JSON_stringify ToString
     URLSearchParams_toString).
Local Abbreviation fixedHandler :=
  (fixedPathHandler network JSON_stringify ToString URLSearchParams_toString).
Local Abbreviation mainReq := (mainRequest ToString).
Local Abbreviation tokenOf a tr :=
  (getToken (apiKey a) (apiSecret a) (serviceName a) (Some (timeoutMs a)) tr).

(** C8: for every answer of the token endpoint, [getAmadeusToken] returns
  the value of [access_token] when the status is in the 2xx range (the
  statuses axios resolves) and the body and its [access_token] are
  non-empty (truthy); it throws the authentication error "No access_token
  in Amadeus response" when the status is in that range and the field is
  missing or empty; and for any other status it throws the authentication
  error that carries the response body, as text, or the message of the
  axios error when the response has no body. *)
Theorem C8_token_exchange ak sc sn tm tr st d :
network tr (tokenReq ak sc sn (timeoutOr tm)) = NetResponse st d ->
(200 <= st < 300 ->
 Js.truthy d = true -> Js.truthy (Js.getProp d "access_token") = true ->
 snd (getToken ak sc sn tm tr) = inr (Js.getProp d "access_token"))
/\ (200 <= st < 300 ->
    Js.truthy d && Js.truthy (Js.getProp d "access_token") = false ->
    snd (getToken ak sc sn tm tr)
    = inl (JsError "Amadeus auth error: No access_token in Amadeus response"
             None))
/\ (~ 200 <= st < 300 ->
    snd (getToken ak sc sn tm tr)
    = inl (JsError
             ("Amadeus auth error: "
              +:+ (if Js.nullish d
                   then "Request failed with status code " +:+ Js.decimal st
                   else match d with
                        | JsStr s => s
                        | _ => JSON_stringify d
                        end))
             None)).
Proof.
intros Hn. rewrite getAmadeusToken_run, Hn. cbn [snd tokenOutcome].
split; [|split].
- intros Hst Hd Ht.
  replace ((200 <=? st) && (st <? 300)) with true by (symmetry; lia).
  by rewrite Hd, Ht.
- intros Hst Hd.
  replace ((200 <=? st) && (st <? 300)) with true by (symmetry; lia).
  by rewrite Hd.
- intros Hst.
  replace ((200 <=? st) && (st <? 300)) with false by (symmetry; lia).
  reflexivity.
Qed.

(** C9: the forwarder asks the token provider first: the token request is
  the first request it issues. When the token acquisition fails, the
  failure is what the forwarder throws and the token request is the only
  request issued: the resource request is never attempted. The handler of
  [amadeus.request] does the same. *)
Theorem C9_token_first_and_short_circuit a tr :
(exists rest,
    fst (forward a tr)
    = tr ++ tokenReq (apiKey a) (apiSecret a) (serviceName a) (timeoutMs a)
            :: rest)
/\ (forall tr' e,
      tokenOf a tr = (tr', inl e) ->
      forward a tr
      = (tr ++ [tokenReq (apiKey a) (apiSecret a) (serviceName a)
                  (timeoutMs a)],
         inl e))
/\ (forall input tr' e,
      RequestSchema_parse input = inr a ->
      tokenOf a tr = (tr', inl e) ->
      requestHandler input tr
      = (tr ++ [tokenReq (apiKey a) (apiSecret a) (serviceName a)
                  (timeoutMs a)],
         inl e)).
Proof.
split; [|split].
- unfold forwardAmadeus, mbind, M_bind, bind.
  rewrite getAmadeusToken_run. cbn [timeoutOr].
  destruct (tokenOutcome _ _) as [e|token]; [by exists []|].
  unfold axios_request.
  destruct (network _ _) as [st d|msg]; cbn [validateAll mainRequest orb];
    eexists; cbn [fst]; rewrite <- app_assoc; reflexivity.
- intros tr' e H. rewrite (forwardAmadeus_token_failure _ _ _ _ _ _ _ _ H).
  by rewrite (getAmadeusToken_trace _ _ _ _ _ _ _ _ _ _ H).
- intros input tr' e Hp H.
  rewrite (requestHandler_token_failure _ _ _ _ _ _ _ _ _ Hp H).
  by rewrite (getAmadeusToken_trace _ _ _ _ _ _ _ _ _ _ H).
Qed.

(** C7: when the resource request completes with any status, the
  forwarder does not throw: it returns the payload, which is the body
  itself when the body is a string and its JSON serialisation otherwise,
  with [isError] true exactly when the status is at least 400. The
  handler of [amadeus.request] returns the same text and flag. *)
Theorem C7_status_is_surfaced a tr tr' token st d :
tokenOf a tr = (tr', inr token) ->
network tr' (mainReq a token) = NetResponse st d ->
snd (forward a tr)
= inr {| payload := match d with
                    | JsStr s => s
                    | _ => JSON_stringify d
                    end;
         fwdIsError := 400 <=? st |}
/\ ((400 <=? st) = true <-> 400 <= st)
/\ (forall input,
      RequestSchema_parse input = inr a ->
      snd (requestHandler input tr)
      = inr {| text := match d with
                       | JsStr s => s
                       | _ => JSON_stringify d
                       end;
               isError := 400 <=? st |}).
Proof.
intros Ht Hn. split; [|split].
- by rewrite (forwardAmadeus_response _ _ _ _ _ _ _ _ _ _ Ht Hn).
- apply Z.leb_le.
- intros input Hp.
  by rewrite (requestHandler_response _ _ _ _ _ _ _ _ _ _ _ Hp Ht Hn).
Qed.

(** C3: every call of a registered tool returns a result, a text with
  an error flag, whatever the network does: what the callback of the tool
  throws is caught by the server that calls it and becomes the text of a
  result with the error flag set. So a failed token acquisition gives the
  message of the authentication error, "Amadeus auth error: ...", with
  [isError] true, from [amadeus.request] and from a tool with a fixed
  path alike; a transport failure of the resource request gives the text
  "Forwarding error (500): ..." from [amadeus.request] and the message of
  the transport error from a tool with a fixed path, both with [isError]
  true; and a response gives its body, with [isError] true exactly from
  status 400 on. *)
Theorem C3_tool_call_returns_a_result input tr :
(forall handler : JsValue -> M ToolResult,
    exists res, snd (callTool handler input tr) = inr res)
/\ (forall a tr' e,
      RequestSchema_parse input = inr a ->
      tokenOf a tr = (tr', inl e) ->
      snd (callTool requestHandler input tr)
      = inr {| text := messageOf e; isError := true |}
      /\ exists detail, messageOf e = "Amadeus auth error: " +:+ detail)
/\ (forall a tr' token,
      RequestSchema_parse input = inr a ->
      tokenOf a tr = (tr', inr token) ->
      match network tr' (mainReq a token) with
      | NetResponse st d =>
          snd (callTool requestHandler input tr)
          = inr {| text := textOf JSON_stringify d; isError := 400 <=? st |}
      | NetFailure msg =>
          snd (callTool requestHandler input tr)
          = inr {| text := "Forwarding error (500): "
                           +:+ JSON_stringify
                                 (JsObj [("error",
                                          JsStr (if String.eqb msg ""
                                                 then "Unknown error"
                                                 else msg))]);
                   isError := true |}
      end)
/\ (forall m p args tr' e,
      normalizeBase input = inr args ->
      tokenOf (withRoute args m p) tr = (tr', inl e) ->
      snd (callTool (fixedHandler m p) input tr)
      = inr {| text := messageOf e; isError := true |}
      /\ exists detail, messageOf e = "Amadeus auth error: " +:+ detail)
/\ (forall m p args tr' token,
      normalizeBase input = inr args ->
      tokenOf (withRoute args m p) tr = (tr', inr token) ->
      match network tr' (mainReq (withRoute args m p) token) with
      | NetResponse st d =>
          snd (callTool (fixedHandler m p) input tr)
          = inr {| text := textOf JSON_stringify d; isError := 400 <=? st |}
      | NetFailure msg =>
          snd (callTool (fixedHandler m p) input tr)
          = inr {| text := msg; isError := true |}
      end).
Proof.
split; [|split; [|split; [|split]]].
- intros handler. rewrite callTool_run.
  destruct (handler input tr) as [tr' [e|res]]; eexists; reflexivity.
- intros a tr' e Hp Ht. rewrite callTool_run.
  rewrite (requestHandler_token_failure _ _ _ _ _ _ _ _ _ Hp Ht).
  split; [reflexivity|].
  destruct (getAmadeusToken_error _ _ _ _ _ _ _ _ _ _ Ht) as (detail & ->).
  by exists detail.
- intros a tr' token Hp Ht. rewrite callTool_run.
  destruct (network tr' (mainReq a token)) as [st d|msg] eqn:Hn.
  + by rewrite (requestHandler_response _ _ _ _ _ _ _ _ _ _ _ Hp Ht Hn).
  + by rewrite (requestHandler_transport_failure _ _ _ _ _ _ _ _ _ _ Hp Ht Hn).
- intros m p args tr' e Hb Ht. rewrite callTool_run.
  rewrite (fixedHandler_forward _ _ _ _ _ _ _ _ _ Hb).
  rewrite (forwardAmadeus_token_failure _ _ _ _ _ _ _ _ Ht).
  split; [reflexivity|].
  destruct (getAmadeusToken_error _ _ _ _ _ _ _ _ _ _ Ht) as (detail & ->).
  by exists detail.
- intros m p args tr' token Hb Ht. rewrite callTool_run.
  rewrite (fixedHandler_forward _ _ _ _ _ _ _ _ _ Hb).
  destruct (network tr' (mainReq (withRoute args m p) token))
    as [st d|msg] eqn:Hn.
  + by rewrite (forwardAmadeus_response _ _ _ _ _ _ _ _ _ _ Ht Hn).
  + by rewrite (forwardAmadeus_transport_failure _ _ _ _ _ _ _ _ _ Ht Hn).
Qed.

End ServerClaims.

Lemma sample_input_parses : RequestSchema_parse Sample.input = inr Scenario.args.
Proof. vm_compute. reflexivity. Qed.

Lemma C8_token_exchange_witness :
  snd (Scenario.getToken (Sample.twoStep Sample.tokenOk Scenario.notFound) [])
  = inr (JsStr "abc")
  /\ snd (Scenario.getToken
            (Sample.twoStep (NetResponse 200 (JsObj [])) Scenario.notFound) [])
     = inl (JsError "Amadeus auth error: No access_token in Amadeus response"
              None)
  /\ snd (Scenario.getToken
            (Sample.twoStep Scenario.unauthorized Scenario.notFound) [])
     = inl (JsError
              ("Amadeus auth error: "
               +:+ Sample.stringify (JsObj [("error", JsStr "invalid_client")]))
              None).
Proof.
  split; [|split].
  - apply (proj1 (C8_token_exchange
                    (Sample.twoStep Sample.tokenOk Scenario.notFound)
                    Sample.stringify Sample.formEncode
                    "key" "secret" "test" (Some 15000) [] 200
                    (JsObj [("access_token", JsStr "abc")]) eq_refl));
      [lia|reflexivity|reflexivity].
  - apply (proj1 (proj2 (C8_token_exchange
                    (Sample.twoStep (NetResponse 200 (JsObj [])) Scenario.notFound)
                    Sample.stringify Sample.formEncode
                    "key" "secret" "test" (Some 15000) [] 200
                    (JsObj []) eq_refl)));
      [lia|reflexivity].
  - apply (proj2 (proj2 (C8_token_exchange
                    (Sample.twoStep Scenario.unauthorized Scenario.notFound)
                    Sample.stringify Sample.formEncode
                    "key" "secret" "test" (Some 15000) [] 401
                    (JsObj [("error", JsStr "invalid_client")]) eq_refl))).
    lia.
Defined.

Lemma C9_token_first_and_short_circuit_witness :
  Scenario.forward (Sample.twoStep Scenario.unauthorized Scenario.notFound)
    Scenario.args []
  = ([tokenRequest Sample.formEncode "key" "secret" "test" 15000],
     inl (JsError
            ("Amadeus auth error: "
             +:+ Sample.stringify (JsObj [("error", JsStr "invalid_client")]))
            None))
  /\ Scenario.requestHandler
       (Sample.twoStep Scenario.unauthorized Scenario.notFound) Sample.input []
     = ([tokenRequest Sample.formEncode "key" "secret" "test" 15000],
        inl (JsError
               ("Amadeus auth error: "
                +:+ Sample.stringify (JsObj [("error", JsStr "invalid_client")]))
               None)).
Proof.
  destruct (C9_token_first_and_short_circuit
              (Sample.twoStep Scenario.unauthorized Scenario.notFound)
              Sample.stringify Sample.toString Sample.formEncode
              Scenario.args []) as (_ & Hfwd & Hreq).
  split.
  - apply (Hfwd [tokenRequest Sample.formEncode "key" "secret" "test" 15000]).
    vm_compute. reflexivity.
  - apply (Hreq Sample.input
             [tokenRequest Sample.formEncode "key" "secret" "test" 15000]).
    + exact sample_input_parses.
    + vm_compute. reflexivity.
Defined.

Lemma C7_status_is_surfaced_witness :
  snd (Scenario.forward (Sample.twoStep Sample.tokenOk Scenario.notFound)
         Scenario.args [])
  = inr {| payload := Sample.stringify (JsObj [("error", JsStr "not found")]);
           fwdIsError := true |}
  /\ snd (Scenario.requestHandler (Sample.twoStep Sample.tokenOk Scenario.notFound)
            Sample.input [])
     = inr {| text := Sample.stringify (JsObj [("error", JsStr "not found")]);
              isError := true |}.
Proof.
  destruct (C7_status_is_surfaced
              (Sample.twoStep Sample.tokenOk Scenario.notFound)
              Sample.stringify Sample.toString Sample.formEncode
              Scenario.args []
              [tokenRequest Sample.formEncode "key" "secret" "test" 15000]
              (JsStr "abc") 404 (JsObj [("error", JsStr "not found")]))
    as (Hfwd & _ & Hreq).
  - vm_compute. reflexivity.
  - reflexivity.
  - split; [exact Hfwd|]. apply Hreq. exact sample_input_parses.
Defined.

(** C2 fails on [forwardAmadeus]: with the token obtained and the
    connection to the resource endpoint refused, the forwarder of the
    per-endpoint server throws the transport error, and so does the
    handler of a fixed-path tool, whereas the handler of [amadeus.request]
    returns the text "Forwarding error (500): ..." with the error flag. *)
Theorem C2_forwardAmadeus_lets_transport_failure_through :
  snd (Scenario.forward (Sample.twoStep Sample.tokenOk Scenario.refused)
         Scenario.args [])
  = inl (JsError "connect ECONNREFUSED" None)
  /\ snd (Scenario.fixedHandler (Sample.twoStep Sample.tokenOk Scenario.refused)
            "GET" "/v2/shopping/flight-offers" Sample.input [])
     = inl (JsError "connect ECONNREFUSED" None)
  /\ snd (Scenario.requestHandler (Sample.twoStep Sample.tokenOk Scenario.refused)
            Sample.input [])
     = inr {| text := "Forwarding error (500): "
                      +:+ Sample.stringify
                            (JsObj [("error", JsStr "connect ECONNREFUSED")]);
              isError := true |}.
Proof. repeat split; vm_compute; reflexivity. Qed.

Lemma C3_tool_call_returns_a_result_witness :
  snd (callTool
         (Scenario.requestHandler
            (Sample.twoStep (NetFailure "getaddrinfo ENOTFOUND")
               Scenario.notFound))
         Sample.input [])
  = inr {| text := "Amadeus auth error: getaddrinfo ENOTFOUND";
           isError := true |}
  /\ snd (callTool
            (Scenario.requestHandler
               (Sample.twoStep Sample.tokenOk Scenario.refused))
            Sample.input [])
     = inr {| text := "Forwarding error (500): "
                      +:+ Sample.stringify
                            (JsObj [("error", JsStr "connect ECONNREFUSED")]);
              isError := true |}
  /\ snd (callTool
            (Scenario.fixedHandler
               (Sample.twoStep Scenario.unauthorized Scenario.notFound)
               "GET" "/v2/shopping/flight-offers")
            Sample.input [])
     = inr {| text := "Amadeus auth error: "
                      +:+ Sample.stringify
                            (JsObj [("error", JsStr "invalid_client")]);
              isError := true |}
  /\ snd (callTool
            (Scenario.fixedHandler
               (Sample.twoStep Sample.tokenOk Scenario.refused)
               "GET" "/v2/shopping/flight-offers")
            Sample.input [])
     = inr {| text := "connect ECONNREFUSED"; isError := true |}.
Proof.
  split; [|split; [|split]].
  - exact (proj1 (proj1 (proj2 (C3_tool_call_returns_a_result
                    (Sample.twoStep (NetFailure "getaddrinfo ENOTFOUND")
                       Scenario.notFound)
                    Sample.stringify Sample.toString Sample.formEncode
                    Sample.input []))
             Scenario.args
             [tokenRequest Sample.formEncode "key" "secret" "test" 15000]
             _ sample_input_parses eq_refl)).
  - exact (proj1 (proj2 (proj2 (C3_tool_call_returns_a_result
                    (Sample.twoStep Sample.tokenOk Scenario.refused)
                    Sample.stringify Sample.toString Sample.formEncode
                    Sample.input [])))
             Scenario.args
             [tokenRequest Sample.formEncode "key" "secret" "test" 15000]
             (JsStr "abc") sample_input_parses eq_refl).
  - exact (proj1 (proj1 (proj2 (proj2 (proj2 (C3_tool_call_returns_a_result
                    (Sample.twoStep Scenario.unauthorized Scenario.notFound)
                    Sample.stringify Sample.toString Sample.formEncode
                    Sample.input []))))
             "GET" "/v2/shopping/flight-offers" _
             [tokenRequest Sample.formEncode "key" "secret" "test" 15000]
             _ eq_refl eq_refl)).
  - exact (proj2 (proj2 (proj2 (proj2 (C3_tool_call_returns_a_result
                    (Sample.twoStep Sample.tokenOk Scenario.refused)
                    Sample.stringify Sample.toString Sample.formEncode
                    Sample.input []))))
             "GET" "/v2/shopping/flight-offers" _
             [tokenRequest Sample.formEncode "key" "secret" "test" 15000]
             (JsStr "abc") eq_refl eq_refl).
Defined.

(** ** The authorization header *)

Section HeaderFacts.

Variable ToString : JsValue -> string.

Lemma foldl_lower_is_Some (g : string -> JsValue)
  (props : list (string * JsValue)) (acc : gmap string JsValue) key :
is_Some (foldl (fun lower kv => <[ JsString.toLowerCase kv.1 := g kv.1 ]> lower)
           acc props !! key)
<-> is_Some (acc !! key)
    \/ exists kv, In kv props /\ JsString.toLowerCase kv.1 = key.
Proof.
revert acc. induction props as [|kv props IH]; intros acc; cbn [foldl].
- split; [by left|]. intros [H|(kv & [] & _)]. exact H.
- rewrite IH, lookup_insert_is_Some'. split.
  + intros [[Heq|H]|(kv' & Hin & Hk)].
    * right. exists kv. split; [by left|exact Heq].
    * by left.
    * right. exists kv'. split; [by right|exact Hk].
  + intros [H|(kv' & [<-|Hin] & Hk)].
    * left. by right.
    * left. by left.
    * right. by exists kv'.
Qed.

Lemma hasAuthorizationKey_true_iff h :
hasAuthorizationKey h = true
<-> exists k v, In (k, v) (Js.ownProps h)
                /\ JsString.toLowerCase k = "authorization".
Proof.
unfold hasAuthorizationKey, lowerKeys.
pose proof (foldl_lower_is_Some
              (fun k => Js.lookupProp k (Js.ownProps h))
              (Js.ownProps h) ∅ "authorization") as H.
rewrite lookup_empty in H.
destruct (foldl _ _ _ !! "authorization") as [x|].
- split; [intros _|reflexivity].
  destruct (proj1 H (mk_is_Some _ _ eq_refl)) as [[? [=]]|([k v] & Hin & Hk)].
  by exists k, v.
- split; [discriminate|]. intros (k & v & Hin & Hk).
  destruct (proj2 H (or_intror (ex_intro _ (k, v) (conj Hin Hk)))) as [? [=]].
Qed.

Lemma mergeHeaders_authorization h token ct :
mergeHeaders ToString h token ct !! "Authorization"
= Some (JsStr ("Bearer " +:+ ToString token)).
Proof.
unfold mergeHeaders. rewrite lookup_insert_ne by discriminate.
apply lookup_insert_eq.
Qed.

Lemma mergeHeaders_contentType h token ct :
mergeHeaders ToString h token ct !! "Content-Type" = Some (JsStr ct).
Proof. unfold mergeHeaders. apply lookup_insert_eq. Qed.

(** When the caller's headers hold no authorization key, the merged
  headers hold one, spelled [Authorization], with the bearer token. *)
Lemma mergeHeaders_only_authorization h token ct k v :
hasAuthorizationKey h = false ->
mergeHeaders ToString h token ct !! k = Some v ->
JsString.toLowerCase k = "authorization" ->
k = "Authorization" /\ v = JsStr ("Bearer " +:+ ToString token).
Proof.
intros Hno Hk Hlow.
destruct (decide (k = "Authorization")) as [->|Hne].
- rewrite mergeHeaders_authorization in Hk. by injection Hk as <-.
- exfalso. unfold mergeHeaders in Hk.
  rewrite lookup_insert_ne in Hk by (intros <-; discriminate Hlow).
  rewrite lookup_insert_ne in Hk by congruence.
  apply elem_of_list_to_map_2, list_elem_of_In in Hk.
  assert (hasAuthorizationKey h = true) as Hyes
    by (apply hasAuthorizationKey_true_iff; eauto).
  congruence.
Qed.

Lemma ownProps_object h kv :
In kv (Js.ownProps h) -> objectOrEmpty h = h.
Proof. destruct h as [| | | | |items|props]; try (intros []); reflexivity. Qed.

(** [normalizeBase] returns only when the headers hold no authorization
  key. *)
Lemma normalizeBase_headers input b :
normalizeBase input = inr b ->
b_headers b = objectOrEmpty (Js.getProp input "headers")
/\ hasAuthorizationKey (b_headers b) = false.
Proof.
unfold normalizeBase, mbind, Thrown_bind.
destruct (ensureString _ "serviceName"); [discriminate|].
destruct (ensureString _ "apiKey"); [discriminate|].
destruct (ensureString _ "apiSecret"); [discriminate|].
unfold assertNoAuthHeader.
assert (Js.truthy (objectOrEmpty (Js.getProp input "headers")) = true) as ->.
{ unfold objectOrEmpty.
  destruct (Js.truthy (Js.getProp input "headers")) eqn:Ht; [|reflexivity].
  destruct (Js.typeofObject _); [exact Ht|reflexivity]. }
cbn [negb].
destruct (hasAuthorizationKey _) eqn:Hno; [discriminate|].
destruct (negb _); [discriminate|]. intros [= <-]. by split.
Qed.

(** [RequestSchema.parse] returns only when the headers hold no
  authorization key. *)
Lemma RequestSchema_parse_headers input a :
RequestSchema_parse input = inr a ->
hasAuthorizationKey (Js.getProp input "headers") = false
/\ hasAuthorizationKey (fheaders a) = false.
Proof.
unfold RequestSchema_parse. destruct input; try discriminate.
set (hv := Js.getProp (JsObj props) "headers").
destruct (zString _ 2 _) as [i1 [v1|]], (zString _ 1 "apiKey is required")
  as [i2 [v2|]], (zString _ 1 "apiSecret is required") as [i3 [v3|]],
  (zMethod _) as [i4 [v4|]], (zPath _) as [i5 [v5|]],
  (zQuery _) as [i6 [v6|]], (zHeaders hv) as [i7 [v7|]] eqn:Hh,
  (zContentType _) as [i8 [v8|]], (zTimeout _) as [i9 [v9|]];
  cbn [fst snd];
  destruct (i1 ++ i2 ++ i3 ++ i4 ++ i5 ++ i6 ++ i7 ++ i8 ++ i9) eqn:Hi;
  try discriminate.
intros [= <-]. cbn [fheaders].
repeat (apply app_eq_nil in Hi as [? Hi]). subst.
revert Hh. unfold zHeaders. destruct hv as [| | | | |items|hp] eqn:Hhv;
  try discriminate.
- intros [= <-]. by split.
- intros [= Hiss <-]. apply app_eq_nil in Hiss as [_ Hiss].
  destruct (hasAuthorizationKey (JsObj hp)); [discriminate|]. by split.
Qed.

End HeaderFacts.

Section HeaderClaims.

Variable network : list AxiosConfig -> AxiosConfig -> NetOutcome.
Variable JSON_stringify : JsValue -> string.
Variable ToString : JsValue -> string.
Variable URLSearchParams_toString : list (string * string) -> string.

Local Abbreviation tokenReq := (tokenRequest URLSearchParams_toString).
Local Abbreviation forward :=
(forwardAmadeus network JSON_stringify ToString URLSearchParams_toString).
Local Abbreviation requestHandler :=
(amadeusRequestHandler network JSON_stringify ToString
   URLSearchParams_toString).
Local Abbreviation fixedHandler :=
(fixedPathHandler network JSON_stringify ToString URLSearchParams_toString).
Local Abbreviation mainReq := (mainRequest ToString).
Local Abbreviation tokenReqOf a :=
(tokenReq (apiKey a) (apiSecret a) (serviceName a) (timeoutMs a)).

(** The resource request of a run in which the token endpoint hands out
  a token: it is the request issued after the token request, and its
  headers hold [Authorization] with the bearer of that token and
  [Content-Type] with the content type of the call. *)
Lemma forwardAmadeus_bearer a tr st d :
network tr (tokenReqOf a) = NetResponse st d ->
200 <= st < 300 ->
Js.truthy d = true ->
Js.truthy (Js.getProp d "access_token") = true ->
exists cfg,
  cfg = mainReq a (Js.getProp d "access_token")
  /\ fst (forward a tr) = tr ++ [tokenReqOf a; cfg]
  /\ (forall input, RequestSchema_parse input = inr a ->
                    fst (requestHandler input tr) = tr ++ [tokenReqOf a; cfg])
  /\ headers cfg !! "Authorization"
     = Some (JsStr ("Bearer " +:+ ToString (Js.getProp d "access_token")))
  /\ headers cfg !! "Content-Type" = Some (JsStr (contentType a)).
Proof.
intros Hn Hst Hd Ht.
pose proof (getAmadeusToken_obtained network JSON_stringify
              URLSearchParams_toString (apiKey a) (apiSecret a)
              (serviceName a) (Some (timeoutMs a)) tr st d Hn Hst Hd Ht)
  as Hrun. cbn [timeoutOr] in Hrun.
exists (mainReq a (Js.getProp d "access_token")).
split; [reflexivity|]. split; [|split; [|split]].
- destruct (network (tr ++ [tokenReqOf a])
              (mainReq a (Js.getProp d "access_token"))) as [st' d'|msg] eqn:Hm.
  + rewrite (forwardAmadeus_response _ _ _ _ _ _ _ _ _ _ Hrun Hm).
    cbn [fst]. by rewrite <- app_assoc.
  + rewrite (forwardAmadeus_transport_failure _ _ _ _ _ _ _ _ _ Hrun Hm).
    cbn [fst]. by rewrite <- app_assoc.
- intros input Hp.
  destruct (network (tr ++ [tokenReqOf a])
              (mainReq a (Js.getProp d "access_token"))) as [st' d'|msg] eqn:Hm.
  + rewrite (requestHandler_response _ _ _ _ _ _ _ _ _ _ _ Hp Hrun Hm).
    cbn [fst]. by rewrite <- app_assoc.
  + rewrite (requestHandler_transport_failure _ _ _ _ _ _ _ _ _ _ Hp Hrun Hm).
    cbn [fst]. by rewrite <- app_assoc.
- apply mergeHeaders_authorization.
- apply mergeHeaders_contentType.
Qed.

(** C4: whatever headers the caller supplies, the merged headers of the
  outgoing request hold [Authorization] with the text "Bearer " followed
  by the token and [Content-Type] with the content type: the entries the
  server sets win over entries of the same name. An input whose headers
  hold a key that is "authorization" up to case is rejected by both entry
  points before any request is issued; so in every request that is
  issued, the only header that is "authorization" up to case is
  [Authorization], with the bearer token. And in every run in which the
  token endpoint hands out a token, the request that the forwarder, the
  handler of [amadeus.request] and a tool with a fixed path issue after
  the token request holds [Authorization] with "Bearer " followed by the
  [access_token] of that very answer, and no other header that is
  "authorization" up to case. *)
Theorem C4_authorization_is_the_bearer_token :
(forall h token ct,
    mergeHeaders ToString h token ct !! "Authorization"
    = Some (JsStr ("Bearer " +:+ ToString token))
    /\ mergeHeaders ToString h token ct !! "Content-Type" = Some (JsStr ct))
/\ (forall input k v,
      In (k, v) (Js.ownProps (Js.getProp input "headers")) ->
      JsString.toLowerCase k = "authorization" ->
      (exists e, forall tr, requestHandler input tr = (tr, inl e))
      /\ (exists e, forall m p tr, fixedHandler m p input tr = (tr, inl e)))
/\ (forall input a token k v,
      RequestSchema_parse input = inr a ->
      headers (mainReq a token) !! k = Some v ->
      JsString.toLowerCase k = "authorization" ->
      k = "Authorization" /\ v = JsStr ("Bearer " +:+ ToString token))
/\ (forall input b m p token k v,
      normalizeBase input = inr b ->
      headers (mainReq (withRoute b m p) token) !! k = Some v ->
      JsString.toLowerCase k = "authorization" ->
      k = "Authorization" /\ v = JsStr ("Bearer " +:+ ToString token))
/\ (forall a tr st d,
      network tr (tokenReqOf a) = NetResponse st d ->
      200 <= st < 300 ->
      Js.truthy d = true ->
      Js.truthy (Js.getProp d "access_token") = true ->
      exists cfg,
        fst (forward a tr) = tr ++ [tokenReqOf a; cfg]
        /\ headers cfg !! "Authorization"
           = Some (JsStr ("Bearer "
                          +:+ ToString (Js.getProp d "access_token")))
        /\ headers cfg !! "Content-Type" = Some (JsStr (contentType a)))
/\ (forall input a tr st d,
      RequestSchema_parse input = inr a ->
      network tr (tokenReqOf a) = NetResponse st d ->
      200 <= st < 300 ->
      Js.truthy d = true ->
      Js.truthy (Js.getProp d "access_token") = true ->
      exists cfg,
        fst (requestHandler input tr) = tr ++ [tokenReqOf a; cfg]
        /\ headers cfg !! "Authorization"
           = Some (JsStr ("Bearer "
                          +:+ ToString (Js.getProp d "access_token")))
        /\ headers cfg !! "Content-Type" = Some (JsStr (contentType a))
        /\ forall k v,
             headers cfg !! k = Some v ->
             JsString.toLowerCase k = "authorization" ->
             k = "Authorization"
             /\ v = JsStr ("Bearer "
                           +:+ ToString (Js.getProp d "access_token")))
/\ (forall input b m p tr st d,
      normalizeBase input = inr b ->
      network tr (tokenReqOf (withRoute b m p)) = NetResponse st d ->
      200 <= st < 300 ->
      Js.truthy d = true ->
      Js.truthy (Js.getProp d "access_token") = true ->
      exists cfg,
        fst (fixedHandler m p input tr)
        = tr ++ [tokenReqOf (withRoute b m p); cfg]
        /\ headers cfg !! "Authorization"
           = Some (JsStr ("Bearer "
                          +:+ ToString (Js.getProp d "access_token")))
        /\ headers cfg !! "Content-Type" = Some (JsStr (b_contentType b))
        /\ forall k v,
             headers cfg !! k = Some v ->
             JsString.toLowerCase k = "authorization" ->
             k = "Authorization"
             /\ v = JsStr ("Bearer "
                           +:+ ToString (Js.getProp d "access_token"))).
Proof.
split; [|split; [|split; [|split; [|split; [|split]]]]].
- intros h token ct. split.
  + apply mergeHeaders_authorization.
  + apply mergeHeaders_contentType.
- intros input k v Hin Hlow.
  assert (Hyes : hasAuthorizationKey (Js.getProp input "headers") = true)
    by (apply hasAuthorizationKey_true_iff; eauto).
  split.
  + destruct (RequestSchema_parse input) as [e|a] eqn:Hp.
    * exists e. intros tr.
      unfold amadeusRequestHandler, mbind, M_bind, bind, lift.
      by rewrite Hp.
    * apply RequestSchema_parse_headers in Hp as [Hno _]. congruence.
  + destruct (normalizeBase input) as [e|b] eqn:Hb.
    * exists e. intros m p tr.
      unfold fixedPathHandler, mbind, M_bind, bind, lift. by rewrite Hb.
    * apply normalizeBase_headers in Hb as [Heq Hno].
      rewrite Heq, (ownProps_object _ _ Hin) in Hno. congruence.
- intros input a token k v Hp Hk Hlow.
  apply RequestSchema_parse_headers in Hp as [_ Hno].
  by apply (mergeHeaders_only_authorization ToString
              (fheaders a) token (contentType a)).
- intros input b m p token k v Hb Hk Hlow.
  apply normalizeBase_headers in Hb as [_ Hno].
  by apply (mergeHeaders_only_authorization ToString
              (b_headers b) token (b_contentType b)).
- intros a tr st d Hn Hst Hd Ht.
  destruct (forwardAmadeus_bearer a tr st d Hn Hst Hd Ht)
    as (cfg & _ & Hfwd & _ & Hauth & Hct).
  by exists cfg.
- intros input a tr st d Hp Hn Hst Hd Ht.
  destruct (forwardAmadeus_bearer a tr st d Hn Hst Hd Ht)
    as (cfg & -> & _ & Hreq & Hauth & Hct).
  eexists. split; [exact (Hreq input Hp)|]. split; [exact Hauth|].
  split; [exact Hct|]. intros k v Hk Hlow.
  apply RequestSchema_parse_headers in Hp as [_ Hno].
  by apply (mergeHeaders_only_authorization ToString
              (fheaders a) (Js.getProp d "access_token") (contentType a)).
- intros input b m p tr st d Hb Hn Hst Hd Ht.
  destruct (forwardAmadeus_bearer (withRoute b m p) tr st d Hn Hst Hd Ht)
    as (cfg & -> & Hfwd & _ & Hauth & Hct).
  eexists. split; [|split; [exact Hauth|split; [exact Hct|]]].
  + rewrite <- Hfwd.
    rewrite (fixedHandler_forward _ _ _ _ _ _ _ _ _ Hb).
    by destruct (forward (withRoute b m p) tr) as [tr' [e|r]].
  + intros k v Hk Hlow.
    apply normalizeBase_headers in Hb as [_ Hno].
    by apply (mergeHeaders_only_authorization ToString
                (b_headers b) (Js.getProp d "access_token")
                (b_contentType b)).
Qed.

End HeaderClaims.

Lemma C4_authorization_is_the_bearer_token_witness :
  ((exists e, forall tr,
       Scenario.requestHandler (Sample.twoStep Sample.tokenOk Scenario.notFound)
         inputWithAuthorization tr = (tr, inl e))
   /\ (exists e, forall m p tr,
          Scenario.fixedHandler (Sample.twoStep Sample.tokenOk Scenario.notFound)
            m p inputWithAuthorization tr = (tr, inl e)))
  /\ (forall k v,
        headers (mainRequest Sample.toString Scenario.args (JsStr "abc")) !! k
        = Some v ->
        JsString.toLowerCase k = "authorization" ->
        k = "Authorization" /\ v = JsStr "Bearer abc")
  /\ (exists cfg,
        fst (Scenario.requestHandler
               (Sample.twoStep Sample.tokenOk Scenario.notFound)
               Sample.input [])
        = [tokenRequest Sample.formEncode "key" "secret" "test" 15000; cfg]
        /\ headers cfg !! "Authorization" = Some (JsStr "Bearer abc")
        /\ headers cfg !! "Content-Type" = Some (JsStr "application/json"))
  /\ (exists cfg,
        fst (Scenario.fixedHandler
               (Sample.twoStep Sample.tokenOk Scenario.notFound)
               "GET" "/v2/shopping/flight-offers" Sample.input [])
        = [tokenRequest Sample.formEncode "key" "secret" "test" 15000; cfg]
        /\ headers cfg !! "Authorization" = Some (JsStr "Bearer abc")
        /\ headers cfg !! "Content-Type" = Some (JsStr "application/json")).
Proof.
  destruct (C4_authorization_is_the_bearer_token
              (Sample.twoStep Sample.tokenOk Scenario.notFound)
              Sample.stringify Sample.toString Sample.formEncode)
    as (_ & Hrej & Hreq & _ & _ & Hsent & Hfixed).
  split; [|split; [|split]].
  - apply (Hrej inputWithAuthorization "AUTHORIZATION" (JsStr "Bearer forged")).
    + left. reflexivity.
    + reflexivity.
  - intros k v. apply (Hreq Sample.input Scenario.args (JsStr "abc") k v).
    exact sample_input_parses.
  - destruct (Hsent Sample.input Scenario.args [] 200
                (JsObj [("access_token", JsStr "abc")])
                sample_input_parses eq_refl)
      as (cfg & Htr & Hauth & Hct & _); [lia|reflexivity|reflexivity|].
    exists cfg. split; [exact Htr|]. split; [exact Hauth|exact Hct].
  - destruct (Hfixed Sample.input _ "GET" "/v2/shopping/flight-offers" [] 200
                (JsObj [("access_token", JsStr "abc")]) eq_refl eq_refl)
      as (cfg & Htr & Hauth & Hct & _); [lia|reflexivity|reflexivity|].
    exists cfg. split; [exact Htr|]. split; [exact Hauth|exact Hct].
Defined.

(** ** The timeout of normalizeBase *)

Lemma ensureString_not_timeout v name e :
  name = "serviceName" \/ name = "apiKey" \/ name = "apiSecret" ->
  ensureString v name = inl e -> e <> JsError timeoutMessage None.
Proof.
  intros Hname. unfold ensureString.
  assert (JsError (name +:+ " must be a non-empty string") None
          <> JsError timeoutMessage None)
    by (destruct Hname as [->|[->| ->]]; discriminate).
  destruct v; try (intros [= <-]; assumption).
  destruct (JsString.trimIsEmpty s); [intros [= <-]; assumption|discriminate].
Qed.

(** The three ways [normalizeBase] ends. *)
Lemma normalizeBase_cases input :
  let t := timeoutOf (Js.getProp input "timeoutMs") in
  (~ earlierChecksPass input
   /\ exists e, normalizeBase input = inl e /\ e <> JsError timeoutMessage None)
  \/ (earlierChecksPass input /\ ~ (0 < t <= 60000)
      /\ normalizeBase input = inl (JsError timeoutMessage None))
  \/ (earlierChecksPass input /\ 0 < t <= 60000
      /\ exists b, normalizeBase input = inr b /\ b_timeoutMs b = t).
Proof.
  unfold earlierChecksPass, normalizeBase, mbind, Thrown_bind.
  destruct (ensureString _ "serviceName") as [e1|sn] eqn:H1.
  { left. split; [intros ((? & [=]) & _)|]. exists e1. split; [reflexivity|].
    apply ensureString_not_timeout in H1; tauto. }
  destruct (ensureString _ "apiKey") as [e2|ak] eqn:H2.
  { left. split; [intros (_ & (? & [=]) & _)|]. exists e2. split; [reflexivity|].
    apply ensureString_not_timeout in H2; tauto. }
  destruct (ensureString _ "apiSecret") as [e3|sc] eqn:H3.
  { left. split; [intros (_ & _ & (? & [=]) & _)|]. exists e3.
    split; [reflexivity|]. apply ensureString_not_timeout in H3; tauto. }
  destruct (assertNoAuthHeader _) as [e4|[]] eqn:H4.
  { left. split; [intros (_ & _ & _ & [=])|]. exists e4. split; [reflexivity|].
    revert H4. unfold assertNoAuthHeader. destruct (negb _); [discriminate|].
    destruct (hasAuthorizationKey _); [intros [= <-]|]; discriminate. }
  right. fold (timeoutOf (Js.getProp input "timeoutMs")).
  generalize (timeoutOf (Js.getProp input "timeoutMs")). intros t.
  destruct (negb ((0 <? t) && (t <=? 60000))) eqn:Hr.
  - left. repeat split; eauto. lia.
  - right. repeat split; eauto; lia.
Qed.

(** C10: when [timeoutMs] is not an integer (absent, fractional or not a
    number), [normalizeBase] takes 15000 and the timeout is no cause of an
    error: it never throws the timeout error, every result it returns has
    the timeout 15000, and it returns one whenever the checks made before
    the timeout pass. The error "timeoutMs must be a positive integer up to
    60000" is thrown only when [timeoutMs] is an integer outside (0, 60000],
    and it is thrown for every such integer that reaches the check, that
    is, when the checks made before it pass. *)
Theorem C10_timeout_default_and_range input :
  (Js.isInteger (Js.getProp input "timeoutMs") = false ->
   normalizeBase input <> inl (JsError timeoutMessage None)
   /\ (forall b, normalizeBase input = inr b -> b_timeoutMs b = 15000)
   /\ (earlierChecksPass input ->
       exists b, normalizeBase input = inr b /\ b_timeoutMs b = 15000))
  /\ (normalizeBase input = inl (JsError timeoutMessage None) ->
      exists z, Js.getProp input "timeoutMs" = JsNum (NumInt z)
                /\ ~ (0 < z <= 60000))
  /\ (forall z,
        Js.getProp input "timeoutMs" = JsNum (NumInt z) ->
        ~ (0 < z <= 60000) ->
        (forall b, normalizeBase input <> inr b)
        /\ (earlierChecksPass input ->
            normalizeBase input = inl (JsError timeoutMessage None)))
  /\ (forall z,
        Js.getProp input "timeoutMs" = JsNum (NumInt z) ->
        0 < z <= 60000 ->
        normalizeBase input <> inl (JsError timeoutMessage None)
        /\ (forall b, normalizeBase input = inr b -> b_timeoutMs b = z)).
Proof.
  pose proof (normalizeBase_cases input) as Hcases. cbn zeta in Hcases.
  split; [|split; [|split]].
  - intros Hint.
    assert (Ht : timeoutOf (Js.getProp input "timeoutMs") = 15000).
    { destruct (Js.getProp input "timeoutMs") as [| | |[z|f n d]| | |];
        try reflexivity. discriminate Hint. }
    rewrite Ht in Hcases.
    destruct Hcases as [(Hno & e & -> & He)|[(_ & Hr & _)|(Hyes & _ & b & -> & Hb)]].
    + split; [congruence|]. split; [discriminate|]. contradiction.
    + lia.
    + split; [discriminate|]. split; [by intros b' [= <-]|]. eauto.
  - intros Herr. rewrite Herr in Hcases.
    destruct Hcases as [(_ & e & [= <-] & He)|[(_ & Hr & _)|(_ & _ & b & [=] & _)]];
      [congruence|].
    destruct (Js.getProp input "timeoutMs") as [| | |[z|f n d]| | |];
      cbn [timeoutOf] in Hr; try lia. eauto.
  - intros z Hz Hr. rewrite Hz in Hcases. cbn [timeoutOf] in Hcases.
    destruct Hcases as [(Hno & e & -> & He)|[(Hyes & _ & ->)|(_ & Hr' & _)]].
    + split; [discriminate|]. contradiction.
    + split; [discriminate|]. reflexivity.
    + contradiction.
  - intros z Hz Hr. rewrite Hz in Hcases. cbn [timeoutOf] in Hcases.
    destruct Hcases as [(Hno & e & -> & He)|[(_ & Hr' & _)|(_ & _ & b & -> & Hb)]].
    + split; [congruence|discriminate].
    + contradiction.
    + split; [discriminate|]. by intros b' [= <-].
Qed.

Lemma inputWithTimeout_earlier t : earlierChecksPass (inputWithTimeout t).
Proof. repeat split; try (eexists; reflexivity). Qed.

Lemma C10_timeout_default_and_range_witness :
  (exists b, normalizeBase (inputWithTimeout (JsStr "5000")) = inr b
             /\ b_timeoutMs b = 15000)
  /\ (exists b, normalizeBase (inputWithTimeout (JsNum (NumFrac 2 1 1))) = inr b
                /\ b_timeoutMs b = 15000)
  /\ (exists b, normalizeBase (inputWithTimeout JsUndefined) = inr b
                /\ b_timeoutMs b = 15000)
  /\ normalizeBase (inputWithTimeout (JsNum (NumInt 0)))
     = inl (JsError timeoutMessage None)
  /\ normalizeBase (inputWithTimeout (JsNum (NumInt 60001)))
     = inl (JsError timeoutMessage None)
  /\ (exists z, Js.getProp (inputWithTimeout (JsNum (NumInt 0))) "timeoutMs"
                = JsNum (NumInt z) /\ ~ (0 < z <= 60000))
  /\ normalizeBase (inputWithTimeout (JsNum (NumInt 60000)))
     <> inl (JsError timeoutMessage None).
Proof.
  split; [|split; [|split; [|split; [|split; [|split]]]]].
  - apply (proj1 (C10_timeout_default_and_range
                    (inputWithTimeout (JsStr "5000"))) eq_refl).
    apply inputWithTimeout_earlier.
  - apply (proj1 (C10_timeout_default_and_range
                    (inputWithTimeout (JsNum (NumFrac 2 1 1)))) eq_refl).
    apply inputWithTimeout_earlier.
  - apply (proj1 (C10_timeout_default_and_range
                    (inputWithTimeout JsUndefined)) eq_refl).
    apply inputWithTimeout_earlier.
  - apply (proj1 (proj2 (proj2 (C10_timeout_default_and_range
                                  (inputWithTimeout (JsNum (NumInt 0))))))
             0 eq_refl); [lia|apply inputWithTimeout_earlier].
  - apply (proj1 (proj2 (proj2 (C10_timeout_default_and_range
                                  (inputWithTimeout (JsNum (NumInt 60001))))))
             60001 eq_refl); [lia|apply inputWithTimeout_earlier].
  - apply (proj1 (proj2 (C10_timeout_default_and_range
                           (inputWithTimeout (JsNum (NumInt 0)))))).
    reflexivity.
  - apply (proj2 (proj2 (proj2 (C10_timeout_default_and_range
                                  (inputWithTimeout (JsNum (NumInt 60000))))))
             60000 eq_refl). lia.
Defined.

(** * Further properties of the code *)

(** ** The set of accepted paths *)

Section AcceptedPaths.
Import JsString.

Lemma segmentsMatch_last ts t xs x :
  segmentsMatch (ts ++ [t]) (xs ++ [x]) = true -> segAccept t x = true.
Proof.
  revert xs. induction ts as [|t' ts IH]; intros [|x' xs]; cbn [app segmentsMatch].
  - by intros [H _]%andb_true_iff.
  - intros [_ H]%andb_true_iff. destruct xs; discriminate H.
  - intros [_ H]%andb_true_iff. destruct ts; discriminate H.
  - intros [_ H]%andb_true_iff. by apply (IH xs).
Qed.

Lemma templateSegs_no_empty_last l : templateSegs (l ++ [""]) = false.
Proof.
  unfold templateSegs.
  change ["";"v1";"booking";"flight-orders";":flightOrderId"]
    with (["";"v1";"booking";"flight-orders"] ++ [":flightOrderId"]).
  change ["";"v1";"ordering";"transfer-orders";":transferOrderId";
          "transfers";"cancellation"]
    with (["";"v1";"ordering";"transfer-orders";":transferOrderId";
           "transfers"] ++ ["cancellation"]).
  change ["";"v3";"shopping";"hotel-offers";":hotelOfferId"]
    with (["";"v3";"shopping";"hotel-offers"] ++ [":hotelOfferId"]).
  repeat match goal with
         | |- context [segmentsMatch (?ts ++ [?t]) (l ++ [""])] =>
             let H := fresh in
             destruct (segmentsMatch (ts ++ [t]) (l ++ [""])) eqn:H;
             [apply segmentsMatch_last in H; discriminate H|]
         end.
  reflexivity.
Qed.

Lemma hasSegs_In xs : hasSegs xs = true <-> In xs ALLOWED_SEGS.
Proof.
  unfold hasSegs. rewrite existsb_exists. split.
  - intros (es & Hes & ->%segsEqb_eq). exact Hes.
  - intros H. exists xs. split; [exact H|by apply segsEqb_eq].
Qed.

Lemma hasSegs_no_empty_last l : hasSegs (l ++ [""]) = false.
Proof.
  apply not_true_iff_false. intros H%hasSegs_In.
  assert (Hall : forallb (fun es => negb (String.eqb (List.last es "x") ""))
                   ALLOWED_SEGS = true) by (vm_compute; reflexivity).
  rewrite forallb_forall in Hall. specialize (Hall _ H).
  rewrite last_last in Hall. discriminate Hall.
Qed.

Lemma allowed_shape xs : In xs ALLOWED_SEGS -> pathShape xs = true.
Proof.
  assert (Hall : forallb pathShape ALLOWED_SEGS = true)
    by (vm_compute; reflexivity).
  rewrite forallb_forall in Hall. apply Hall.
Qed.

Lemma segmentsMatch_cons_inv t ts xs :
  segmentsMatch (t :: ts) xs = true ->
  exists x xs', xs = x :: xs' /\ segAccept t x = true
                /\ segmentsMatch ts xs' = true.
Proof.
  destruct xs as [|x xs]; [discriminate|]. cbn [segmentsMatch].
  intros [Ha H]%andb_true_iff. by exists x, xs.
Qed.

Lemma segmentsMatch_nil_inv xs : segmentsMatch [] xs = true -> xs = [].
Proof. destruct xs; [reflexivity|discriminate]. Qed.

Lemma segAccept_literal t x :
  startsWith ":" t = false -> segAccept t x = true -> x = t.
Proof. unfold segAccept. intros ->. apply String.eqb_eq. Qed.

Lemma segAccept_placeholder t x :
  startsWith ":" t = true -> segAccept t x = true -> isSegment x = true.
Proof. unfold segAccept. by intros ->. Qed.

Ltac invert_segments H :=
  repeat (let x := fresh "x" in
          let xs := fresh "xs" in
          let Ha := fresh "Ha" in
          apply segmentsMatch_cons_inv in H as (x & xs & -> & Ha & H);
          match type of Ha with
          | segAccept ?t ?y = true =>
              first [apply (segAccept_literal t y eq_refl) in Ha; subst x
                    |apply (segAccept_placeholder t y eq_refl) in Ha]
          end);
  apply segmentsMatch_nil_inv in H; subst.

(** The segment lists the three templates accept. *)
Lemma templateSegs_true_iff xs :
  templateSegs xs = true <->
  exists x, isSegment x = true
            /\ (xs = ["";"v1";"booking";"flight-orders";x]
                \/ xs = ["";"v1";"ordering";"transfer-orders";x;
                         "transfers";"cancellation"]
                \/ xs = ["";"v3";"shopping";"hotel-offers";x]).
Proof.
  unfold templateSegs. split.
  - intros [[H|H]%orb_true_iff|H]%orb_true_iff; invert_segments H;
      eexists; (split; [eassumption|]); tauto.
  - intros (x & Hx & [->|[->| ->]]); cbn; rewrite Hx; cbn;
      rewrite ?orb_true_r; reflexivity.
Qed.

End AcceptedPaths.

(** X1: [pathIsAllowed] accepts exactly the members of the allowlist and
    the paths made of the text of a template before its placeholder, one
    non-empty slash-free segment, and the text after it. *)
Theorem pathIsAllowed_accepts_exactly s :
  pathIsAllowed s = true <->
  In s ALLOWED_PATHS
  \/ exists x,
       JsString.isSegment x = true
       /\ (s = "/v1/booking/flight-orders/" +:+ x
           \/ s = "/v1/ordering/transfer-orders/" +:+ x
                  +:+ "/transfers/cancellation"
           \/ s = "/v3/shopping/hotel-offers/" +:+ x).
Proof.
  rewrite pathIsAllowed_segs, orb_true_iff, <- has_hasSegs, has_In,
    templateSegs_true_iff.
  split; (intros [H|(x & Hx & H)]; [by left|right; exists x; split; [exact Hx|]]).
  - destruct H as [H|[H|H]]; apply (f_equal (JsString.join "/")) in H;
      rewrite join_split in H; subst s; tauto.
  - destruct H as [->|[->| ->]]; [left|right; left|right; right].
    + apply (split_substitute "/v1/booking/flight-orders/:flightOrderId" x Hx).
    + apply (split_substitute
               "/v1/ordering/transfer-orders/:transferOrderId/transfers/cancellation"
               x Hx).
    + apply (split_substitute "/v3/shopping/hotel-offers/:hotelOfferId" x Hx).
Qed.

(** X2: no path that ends with a slash is accepted: a trailing slash is
    not normalised away, neither on a literal entry nor after a
    placeholder segment. *)
Theorem pathIsAllowed_rejects_trailing_slash s :
  pathIsAllowed (s +:+ "/") = false.
Proof.
  rewrite pathIsAllowed_segs, split_app_sep. cbn [JsString.split].
  by rewrite hasSegs_no_empty_last, templateSegs_no_empty_last.
Qed.

(** X3: every accepted path starts with a slash and consists of three to
    six further segments, none of them empty: no accepted path holds two
    slashes in a row. *)
Theorem pathIsAllowed_shape s :
  pathIsAllowed s = true ->
  JsString.startsWith "/" s = true
  /\ exists rest,
       JsString.split "/" s = "" :: rest
       /\ Forall (fun x => JsString.isSegment x = true) rest
       /\ (3 <= length rest <= 6)%nat.
Proof.
  rewrite pathIsAllowed_segs. intros H.
  assert (Hshape : pathShape (JsString.split "/" s) = true).
  { apply orb_true_iff in H as [H|H].
    - by apply allowed_shape, hasSegs_In.
    - apply templateSegs_true_iff in H as (x & Hx & [->|[->| ->]]);
        cbn; rewrite Hx; reflexivity. }
  unfold pathShape in Hshape.
  destruct (JsString.split "/" s) as [|[|c x] rest] eqn:Hs; try discriminate.
  apply andb_true_iff in Hshape as [[Hall Hlo]%andb_true_iff Hhi].
  split.
  - destruct s as [|c s]; [injection Hs as <-; discriminate Hlo|].
    cbn [JsString.split] in Hs. cbn [JsString.startsWith].
    destruct (Ascii.eqb c "/"); [reflexivity|].
    destruct (JsString.split "/" s); discriminate Hs.
  - exists rest. split; [reflexivity|]. split.
    + rewrite forallb_forall in Hall. apply Forall_forall.
      intros x Hx. by apply Hall, list_elem_of_In.
    + split; [by apply Nat.leb_le|by apply Nat.leb_le].
Qed.

Lemma pathIsAllowed_shape_witness :
  JsString.startsWith "/" "/v3/shopping/hotel-offers/XYZ" = true
  /\ exists rest,
       JsString.split "/" "/v3/shopping/hotel-offers/XYZ" = "" :: rest
       /\ Forall (fun x => JsString.isSegment x = true) rest
       /\ (3 <= length rest <= 6)%nat.
Proof. apply pathIsAllowed_shape. vm_compute. reflexivity. Defined.

(** ** Paths built from an identifier *)

Section IdentifierPaths.
Import JsString.

Lemma slashFree_app a b :
  slashFree (a +:+ b) = slashFree a && slashFree b.
Proof.
  induction a as [|c a IH]; [reflexivity|].
  rewrite append_cons. cbn [slashFree]. by rewrite IH, andb_assoc.
Qed.

Lemma includes_app c a b :
  includes c (a +:+ b) = includes c a || includes c b.
Proof.
  induction a as [|d a IH]; [reflexivity|].
  rewrite append_cons. cbn [includes]. by rewrite IH, orb_assoc.
Qed.

Lemma hasQueryOrFragment_app a b :
  hasQueryOrFragment (a +:+ b) = hasQueryOrFragment a || hasQueryOrFragment b.
Proof.
  unfold hasQueryOrFragment. rewrite !includes_app.
  destruct (includes "?" a), (includes "?" b), (includes "#" a),
    (includes "#" b); reflexivity.
Qed.

(** What one code unit is encoded to holds no slash, no [?] and no [#],
    and is not empty. *)
Lemma encodeChar_safe c :
  slashFree (encodeChar c) = true
  /\ hasQueryOrFragment (encodeChar c) = false
  /\ encodeChar c <> "".
Proof.
  destruct c as [[] [] [] [] [] [] [] []];
    (split; [vm_compute; reflexivity|split; [vm_compute; reflexivity|discriminate]]).
Qed.

Lemma encodeURIComponent_slashFree s : slashFree (encodeURIComponent s) = true.
Proof.
  induction s as [|c s IH]; [reflexivity|]. cbn [encodeURIComponent].
  rewrite slashFree_app, IH. by rewrite (proj1 (encodeChar_safe c)).
Qed.

Lemma encodeURIComponent_no_query s :
  hasQueryOrFragment (encodeURIComponent s) = false.
Proof.
  induction s as [|c s IH]; [reflexivity|]. cbn [encodeURIComponent].
  rewrite hasQueryOrFragment_app, IH.
  by rewrite (proj1 (proj2 (encodeChar_safe c))).
Qed.

Lemma encodeURIComponent_segment s :
  s <> "" -> isSegment (encodeURIComponent s) = true.
Proof.
  intros Hs. pose proof (encodeURIComponent_slashFree s) as Hfree.
  destruct s as [|c s]; [congruence|]. cbn [encodeURIComponent] in *.
  destruct (encodeChar_safe c) as (_ & _ & Hne).
  destruct (encodeChar c) as [|d e]; [congruence|].
  rewrite append_cons in *. exact Hfree.
Qed.

Lemma ensureString_inv v name s :
  ensureString v name = inr s -> v = JsStr s /\ trimIsEmpty s = false.
Proof.
  unfold ensureString. destruct v; try discriminate.
  destruct (trimIsEmpty s0) eqn:Ht; [discriminate|]. by intros [= <-].
Qed.

Lemma ensureString_nonempty v name s : ensureString v name = inr s -> s <> "".
Proof. intros [_ H]%ensureString_inv ->. discriminate H. Qed.

End IdentifierPaths.

Lemma append_nil_r e : e +:+ "" = e.
Proof. induction e as [|c e IH]; [reflexivity|]. by rewrite append_cons, IH. Qed.

(** A segment without [?] and [#] at the placeholder of each template. *)
Lemma placeholder_paths_plain e :
  JsString.isSegment e = true -> hasQueryOrFragment e = false ->
  (pathIsAllowed ("/v1/booking/flight-orders/" +:+ e) = true
   /\ hasQueryOrFragment ("/v1/booking/flight-orders/" +:+ e) = false)
  /\ (pathIsAllowed ("/v1/ordering/transfer-orders/" +:+ e
                     +:+ "/transfers/cancellation") = true
      /\ hasQueryOrFragment ("/v1/ordering/transfer-orders/" +:+ e
                             +:+ "/transfers/cancellation") = false)
  /\ (pathIsAllowed ("/v3/shopping/hotel-offers/" +:+ e) = true
      /\ hasQueryOrFragment ("/v3/shopping/hotel-offers/" +:+ e) = false).
Proof.
  intros Hseg Hq.
  repeat split.
  - apply (substitute_accepted "/v1/booking/flight-orders/:flightOrderId" e);
      [unfold ALLOWED_PATHS; simpl; tauto|reflexivity|exact Hseg].
  - by rewrite hasQueryOrFragment_app, Hq.
  - apply (substitute_accepted
             "/v1/ordering/transfer-orders/:transferOrderId/transfers/cancellation"
             e);
      [unfold ALLOWED_PATHS; simpl; tauto|reflexivity|exact Hseg].
  - by rewrite !hasQueryOrFragment_app, Hq.
  - apply (substitute_accepted "/v3/shopping/hotel-offers/:hotelOfferId" e);
      [unfold ALLOWED_PATHS; simpl; tauto|reflexivity|exact Hseg].
  - by rewrite hasQueryOrFragment_app, Hq.
Qed.

(** X4: whatever identifier [ensureString] lets through, the path a
    by-id tool builds from it with [encodeURIComponent] is accepted by
    [pathIsAllowed] and holds neither [?] nor [#]: the identifier cannot
    smuggle in a further segment, a query string or a fragment. *)
Theorem byId_paths_are_allowed v name id :
  ensureString v name = inr id ->
  let e := encodeURIComponent id in
  (pathIsAllowed ("/v1/booking/flight-orders/" +:+ e) = true
   /\ hasQueryOrFragment ("/v1/booking/flight-orders/" +:+ e) = false)
  /\ (pathIsAllowed ("/v1/ordering/transfer-orders/" +:+ e
                     +:+ "/transfers/cancellation") = true
      /\ hasQueryOrFragment ("/v1/ordering/transfer-orders/" +:+ e
                             +:+ "/transfers/cancellation") = false)
  /\ (pathIsAllowed ("/v3/shopping/hotel-offers/" +:+ e) = true
      /\ hasQueryOrFragment ("/v3/shopping/hotel-offers/" +:+ e) = false).
Proof.
  intros Hid e. apply placeholder_paths_plain.
  - apply encodeURIComponent_segment. by apply (ensureString_nonempty v name).
  - apply encodeURIComponent_no_query.
Qed.

Lemma byId_paths_are_allowed_witness :
  pathIsAllowed ("/v1/booking/flight-orders/"
                 +:+ encodeURIComponent "a/b?c#d") = true
  /\ hasQueryOrFragment ("/v1/booking/flight-orders/"
                         +:+ encodeURIComponent "a/b?c#d") = false.
Proof.
  exact (proj1 (byId_paths_are_allowed (JsStr "a/b?c#d") "flightOrderId"
                  "a/b?c#d" eq_refl)).
Defined.

(** ** Requests and outcomes of the token provider and the forwarder *)

Section RequestFacts.

Variable network : list AxiosConfig -> AxiosConfig -> NetOutcome.
Variable JSON_stringify : JsValue -> string.
Variable ToString : JsValue -> string.
Variable URLSearchParams_toString : list (string * string) -> string.

Local Abbreviation getToken :=
  (getAmadeusToken network JSON_stringify URLSearchParams_toString).
Local Abbreviation tokenReq := (tokenRequest URLSearchParams_toString).
Local Abbreviation forward :=
  (forwardAmadeus network JSON_stringify ToString URLSearchParams_toString).
Local Abbreviation requestHandler :=
  (amadeusRequestHandler network JSON_stringify ToString
     URLSearchParams_toString).
Local Abbreviation fixedHandler :=
  (fixedPathHandler network JSON_stringify ToString URLSearchParams_toString).
Local Abbreviation byId :=
  (byIdHandler network JSON_stringify ToString URLSearchParams_toString).
Local Abbreviation envHandler :=
  (envQueryHandler network JSON_stringify ToString URLSearchParams_toString).
Local Abbreviation mainReq := (mainRequest ToString).
Local Abbreviation tokenReqOf a :=
  (tokenReq (apiKey a) (apiSecret a) (serviceName a) (timeoutMs a)).

Lemma tokenOutcome_cases o :
  (exists token, tokenOutcome JSON_stringify o = inr token
                 /\ Js.truthy token = true)
  \/ (exists detail,
        tokenOutcome JSON_stringify o
        = inl (JsError ("Amadeus auth error: " +:+ detail) None)).
Proof.
  unfold tokenOutcome. destruct o as [st d|msg]; [|right; by eexists].
  destruct ((200 <=? st) && (st <? 300)); [|right; by eexists].
  destruct (Js.truthy d); cbn [andb]; [|right; by eexists].
  destruct (Js.truthy (Js.getProp d "access_token")) eqn:Ht;
    [left; by eexists|right; by eexists].
Qed.

(** The requests of a run of [forwardAmadeus]: the token request, then at
    most the resource request. *)
Lemma forwardAmadeus_requests a tr :
  exists reqs,
    fst (forward a tr) = tr ++ reqs
    /\ (reqs = [tokenReqOf a]
        \/ exists token, reqs = [tokenReqOf a; mainReq a token]).
Proof.
  unfold forwardAmadeus, mbind, M_bind, bind.
  rewrite getAmadeusToken_run. cbn [timeoutOr].
  destruct (tokenOutcome _ _) as [e|token].
  - eexists. split; [reflexivity|by left].
  - unfold axios_request.
    destruct (network _ _) as [st d|msg]; cbn [validateAll mainRequest orb fst];
      rewrite <- app_assoc; eexists; (split; [reflexivity|]); right; by eexists.
Qed.

(** X5: [getAmadeusToken] issues exactly one request, the [POST] to the
    token endpoint of the service, whatever the answer (it never retries),
    with the timeout 10000 when none is given. It returns only a truthy
    token; everything it throws is an [Error] without response whose
    message starts with "Amadeus auth error: ", and after a transport
    failure the message ends with the message of that failure. *)
Theorem getAmadeusToken_outcome ak sc sn tm tr :
  let req := tokenReq ak sc sn (match tm with Some t => t | None => 10000 end) in
  fst (getToken ak sc sn tm tr) = tr ++ [req]
  /\ method req = "POST"
  /\ url req = "https://" +:+ sn +:+ ".api.amadeus.com/v1/security/oauth2/token"
  /\ match snd (getToken ak sc sn tm tr) with
     | inr token => Js.truthy token = true
     | inl e =>
         exists detail, e = JsError ("Amadeus auth error: " +:+ detail) None
     end
  /\ (forall msg,
        network tr req = NetFailure msg ->
        snd (getToken ak sc sn tm tr)
        = inl (JsError ("Amadeus auth error: " +:+ msg) None)).
Proof.
  cbn zeta. rewrite getAmadeusToken_run. fold (timeoutOr tm). cbn [fst snd].
  repeat split.
  - destruct (tokenOutcome_cases (network tr (tokenReq ak sc sn (timeoutOr tm))))
      as [(token & -> & Ht)|(detail & ->)]; [exact Ht|by eexists].
  - intros msg ->. reflexivity.
Qed.

(** X6: a run of [forwardAmadeus] issues the token request and then at
    most one more request, the resource request, and that one only with a
    truthy token; it ends with the authentication error after the token
    request alone, or, after both requests, with the result made from the
    response or with the transport error of the resource request. *)
Theorem forwardAmadeus_runs a tr :
  (exists detail,
      forward a tr
      = (tr ++ [tokenReqOf a],
         inl (JsError ("Amadeus auth error: " +:+ detail) None)))
  \/ exists token,
       Js.truthy token = true
       /\ ((exists st d,
               network (tr ++ [tokenReqOf a]) (mainReq a token)
               = NetResponse st d
               /\ forward a tr
                  = (tr ++ [tokenReqOf a; mainReq a token],
                     inr {| payload := textOf JSON_stringify d;
                            fwdIsError := 400 <=? st |}))
           \/ (exists msg,
                  network (tr ++ [tokenReqOf a]) (mainReq a token)
                  = NetFailure msg
                  /\ forward a tr
                     = (tr ++ [tokenReqOf a; mainReq a token],
                        inl (JsError msg None)))).
Proof.
  pose proof (getAmadeusToken_run network JSON_stringify URLSearchParams_toString
                (apiKey a) (apiSecret a) (serviceName a) (Some (timeoutMs a)) tr)
    as Hrun. cbn [timeoutOr] in Hrun.
  destruct (tokenOutcome_cases (network tr (tokenReqOf a)))
    as [(token & Ho & Ht)|(detail & Ho)]; rewrite Ho in Hrun.
  - right. exists token. split; [exact Ht|].
    destruct (network (tr ++ [tokenReqOf a]) (mainReq a token))
      as [st d|msg] eqn:Hn.
    + left. exists st, d. split; [reflexivity|].
      rewrite (forwardAmadeus_response _ _ _ _ _ _ _ _ _ _ Hrun Hn).
      by rewrite <- app_assoc.
    + right. exists msg. split; [reflexivity|].
      rewrite (forwardAmadeus_transport_failure _ _ _ _ _ _ _ _ _ Hrun Hn).
      by rewrite <- app_assoc.
  - left. exists detail.
    by rewrite (forwardAmadeus_token_failure _ _ _ _ _ _ _ _ Hrun).
Qed.

End RequestFacts.

(** ** The requests of the tools *)

Section ToolRequests.

Variable network : list AxiosConfig -> AxiosConfig -> NetOutcome.
Variable JSON_stringify : JsValue -> string.
Variable ToString : JsValue -> string.
Variable URLSearchParams_toString : list (string * string) -> string.

Local Abbreviation tokenReq := (tokenRequest URLSearchParams_toString).
Local Abbreviation forward :=
  (forwardAmadeus network JSON_stringify ToString URLSearchParams_toString).
Local Abbreviation requestHandler :=
  (amadeusRequestHandler network JSON_stringify ToString
     URLSearchParams_toString).
Local Abbreviation fixedHandler :=
  (fixedPathHandler network JSON_stringify ToString URLSearchParams_toString).
Local Abbreviation byId :=
  (byIdHandler network JSON_stringify ToString URLSearchParams_toString).
Local Abbreviation envHandler :=
  (envQueryHandler network JSON_stringify ToString URLSearchParams_toString).
Local Abbreviation mainReq := (mainRequest ToString).
Local Abbreviation tokenReqOf a :=
  (tokenReq (apiKey a) (apiSecret a) (serviceName a) (timeoutMs a)).

Lemma tokenRequest_allowed ak sc sn tm :
  toPlainAllowedPath sn (tokenReq ak sc sn tm).
Proof. exists AMADEUS_TOKEN_PATH. repeat split; vm_compute; reflexivity. Qed.

(** A handler that wraps [forwardAmadeus] issues the requests of
    [forwardAmadeus]. *)
Lemma wrapped_requests a tr :
  fst (mbind (fun r => ret {| text := payload r; isError := fwdIsError r |})
         (forward a) tr)
  = fst (forward a tr).
Proof.
  unfold mbind, M_bind, bind, ret.
  by destruct (forward a tr) as [tr' [e|r]].
Qed.

(** X7: a tool with a fixed method and path issues no request when
    [normalizeBase] rejects the input; otherwise it issues the token
    request and then at most one request, with the method and the path of
    the tool: a [method] or [path] in the input plays no part. *)
Theorem fixedPathHandler_requests m p input tr :
  (exists e, normalizeBase input = inl e
             /\ fixedHandler m p input tr = (tr, inl e))
  \/ exists args reqs,
       normalizeBase input = inr args
       /\ fst (fixedHandler m p input tr) = tr ++ reqs
       /\ (reqs = [tokenReqOf (withRoute args m p)]
           \/ exists token,
                reqs = [tokenReqOf (withRoute args m p);
                        mainReq (withRoute args m p) token]
                /\ method (mainReq (withRoute args m p) token) = m
                /\ url (mainReq (withRoute args m p) token)
                   = "https://" +:+ b_serviceName args
                     +:+ ".api.amadeus.com" +:+ p).
Proof.
  destruct (normalizeBase input) as [e|args] eqn:Hb.
  - left. exists e. split; [reflexivity|].
    unfold fixedPathHandler, mbind, M_bind, bind, lift. by rewrite Hb.
  - right. exists args.
    destruct (forwardAmadeus_requests network JSON_stringify ToString
                URLSearchParams_toString (withRoute args m p) tr)
      as (reqs & Hreqs & Hshape).
    exists reqs. split; [reflexivity|]. split.
    + rewrite <- Hreqs.
      unfold fixedPathHandler, mbind at 1, M_bind at 1, bind at 1, lift.
      rewrite Hb. apply wrapped_requests.
    + destruct Hshape as [->|(token & ->)]; [by left|right].
      exists token. repeat split.
Qed.

Lemma byIdHandler_requests m idName pre post input tr :
  (forall e, JsString.isSegment e = true -> hasQueryOrFragment e = false ->
             pathIsAllowed (pre +:+ e +:+ post) = true
             /\ hasQueryOrFragment (pre +:+ e +:+ post) = false) ->
  (exists e, byId m idName pre post input tr = (tr, inl e)
             /\ (normalizeBase input = inl e
                 \/ ensureString (Js.getProp input idName) idName = inl e))
  \/ exists args id reqs,
       normalizeBase input = inr args
       /\ ensureString (Js.getProp input idName) idName = inr id
       /\ fst (byId m idName pre post input tr) = tr ++ reqs
       /\ (1 <= length reqs <= 2)%nat
       /\ Forall (toPlainAllowedPath (b_serviceName args)) reqs.
Proof.
  intros Hpath. unfold byIdHandler.
  destruct (normalizeBase input) as [e|args] eqn:Hb.
  { left. exists e. split; [reflexivity|by left]. }
  destruct (ensureString (Js.getProp input idName) idName) as [e|id] eqn:Hid.
  { left. exists e. split; [reflexivity|by right]. }
  right. exists args, id.
  set (P := pre +:+ encodeURIComponent id +:+ post).
  destruct (forwardAmadeus_requests network JSON_stringify ToString
              URLSearchParams_toString (withRoute args m P) tr)
    as (reqs & Hreqs & Hshape).
  exists reqs. repeat split.
  - rewrite <- Hreqs. unfold mbind at 1 2, M_bind at 1 2, bind at 1 2, lift.
    apply wrapped_requests.
  - destruct Hshape as [->|(token & ->)]; cbn; lia.
  - destruct Hshape as [->|(token & ->)]; cbn; lia.
  - assert (Hmain : forall token,
               toPlainAllowedPath (b_serviceName args)
                 (mainReq (withRoute args m P) token)).
    { intros token. exists P. split; [reflexivity|]. apply Hpath.
      - apply encodeURIComponent_segment.
        by apply (ensureString_nonempty _ _ _ Hid).
      - apply encodeURIComponent_no_query. }
    destruct Hshape as [->|(token & ->)]; repeat constructor;
      try apply tokenRequest_allowed; apply Hmain.
Qed.


End ToolRequests.

(** ** What the schema of amadeus.request lets through *)

Section SchemaFacts.

Lemma zString_inv v n msg s :
  zString v n msg = ([], Some s) -> v = JsStr s /\ (n <= String.length s)%nat.
Proof.
  unfold zString. destruct v; try discriminate.
  destruct (n <=? String.length s0)%nat eqn:Hn; [|discriminate].
  intros [= <-]. split; [reflexivity|by apply Nat.leb_le].
Qed.

Lemma zMethod_inv v m :
  zMethod v = ([], Some m) ->
  exists s, v = JsStr s /\ m = JsString.toUpperCase s /\ In m METHODS.
Proof.
  unfold zMethod. destruct v; try discriminate.
  destruct (has _ _) eqn:Hm; [|discriminate]. intros [= <-].
  exists s. split; [reflexivity|]. split; [reflexivity|]. by apply has_In.
Qed.

Lemma zPath_inv v p :
  zPath v = ([], Some p) ->
  v = JsStr p /\ JsString.startsWith "/" p = true /\ pathIsAllowed p = true.
Proof.
  unfold zPath. destruct v; try discriminate.
  destruct (JsString.startsWith "/" s) eqn:Hst, (pathIsAllowed s) eqn:Hok;
    try discriminate.
  by intros [= <-].
Qed.

Lemma zTimeout_inv v z :
  zTimeout v = ([], Some z) ->
  (v = JsUndefined /\ z = 15000 \/ v = JsNum (NumInt z)) /\ 0 < z <= 60000.
Proof.
  unfold zTimeout. destruct v as [| | |[z'|f n d]| | |]; try discriminate.
  - intros [= <-]. split; [by left|lia].
  - destruct (0 <? z') eqn:H0, (z' <=? 60000) eqn:H1; try discriminate.
    intros [= <-]. split; [by right|lia].
Qed.

Lemma RequestSchema_parse_fields input a :
  RequestSchema_parse input = inr a ->
  zString (Js.getProp input "serviceName") 2 "serviceName is required"
  = ([], Some (serviceName a))
  /\ zString (Js.getProp input "apiKey") 1 "apiKey is required"
     = ([], Some (apiKey a))
  /\ zString (Js.getProp input "apiSecret") 1 "apiSecret is required"
     = ([], Some (apiSecret a))
  /\ zMethod (Js.getProp input "method") = ([], Some (fmethod a))
  /\ zPath (Js.getProp input "path") = ([], Some (path a))
  /\ zTimeout (Js.getProp input "timeoutMs") = ([], Some (timeoutMs a))
  /\ fbody a = Js.getProp input "body".
Proof.
  unfold RequestSchema_parse. destruct input; try discriminate.
  destruct (zString _ 2 _) as [i1 [v1|]], (zString _ 1 "apiKey is required")
    as [i2 [v2|]], (zString _ 1 "apiSecret is required") as [i3 [v3|]],
    (zMethod _) as [i4 [v4|]], (zPath _) as [i5 [v5|]],
    (zQuery _) as [i6 [v6|]], (zHeaders _) as [i7 [v7|]],
    (zContentType _) as [i8 [v8|]], (zTimeout _) as [i9 [v9|]];
    cbn [fst snd];
    destruct (i1 ++ i2 ++ i3 ++ i4 ++ i5 ++ i6 ++ i7 ++ i8 ++ i9) eqn:Hi;
    try discriminate.
  intros [= <-]. repeat (apply app_eq_nil in Hi as [? Hi]). subst.
  repeat split.
Qed.

End SchemaFacts.

(** X9: a request that [RequestSchema] parses has a service name of at
    least two code units, a non-empty key and secret, a method that is the
    upper-cased method of the input and one of GET, POST, PUT, PATCH and
    DELETE, a path that starts with a slash and that [pathIsAllowed]
    accepts, a timeout in (0, 60000], and headers without an authorization
    key. *)
Theorem RequestSchema_parsed_request_is_valid input a :
  RequestSchema_parse input = inr a ->
  (2 <= String.length (serviceName a))%nat
  /\ apiKey a <> "" /\ apiSecret a <> ""
  /\ In (fmethod a) METHODS
  /\ (exists s, Js.getProp input "method" = JsStr s
                /\ fmethod a = JsString.toUpperCase s)
  /\ JsString.startsWith "/" (path a) = true
  /\ pathIsAllowed (path a) = true
  /\ 0 < timeoutMs a <= 60000
  /\ hasAuthorizationKey (fheaders a) = false.
Proof.
  intros Hp.
  destruct (RequestSchema_parse_fields _ _ Hp)
    as (Hsn & Hak & Hsc & Hm & Hpa & Htm & _).
  apply zString_inv in Hsn as [_ Hsn], Hak as [_ Hak], Hsc as [_ Hsc].
  apply zMethod_inv in Hm as (s & Hs & Hup & Hin).
  apply zPath_inv in Hpa as (_ & Hst & Hok).
  apply zTimeout_inv in Htm as [_ Htm].
  apply RequestSchema_parse_headers in Hp as [_ Hh].
  repeat split; try assumption; try lia.
  - intros E. rewrite E in Hak. cbn in Hak. lia.
  - intros E. rewrite E in Hsc. cbn in Hsc. lia.
  - by exists s.
Qed.

Lemma RequestSchema_parsed_request_is_valid_witness :
  In (fmethod Scenario.args) METHODS
  /\ (exists s, Js.getProp Sample.input "method" = JsStr s
                /\ fmethod Scenario.args = JsString.toUpperCase s)
  /\ pathIsAllowed (path Scenario.args) = true.
Proof.
  destruct (RequestSchema_parsed_request_is_valid Sample.input Scenario.args
              sample_input_parses)
    as (_ & _ & _ & Hm & Hup & _ & Hp & _).
  auto.
Defined.

Section RequestHandlerRequests.

Variable network : list AxiosConfig -> AxiosConfig -> NetOutcome.
Variable JSON_stringify : JsValue -> string.
Variable ToString : JsValue -> string.
Variable URLSearchParams_toString : list (string * string) -> string.

Local Abbreviation tokenReq := (tokenRequest URLSearchParams_toString).
Local Abbreviation requestHandler :=
  (amadeusRequestHandler network JSON_stringify ToString
     URLSearchParams_toString).
Local Abbreviation envHandler :=
  (envQueryHandler network JSON_stringify ToString URLSearchParams_toString).
Local Abbreviation mainReq := (mainRequest ToString).
Local Abbreviation tokenReqOf a :=
  (tokenReq (apiKey a) (apiSecret a) (serviceName a) (timeoutMs a)).



End RequestHandlerRequests.

(** ** Credentials from the environment *)

(** X12: [getEnvAuth] returns exactly when [AMADEUS_API_KEY] and
    [AMADEUS_API_SECRET] are both set and not empty, and then returns them
    unchanged; otherwise it throws the one configuration error. The service
    name it returns is [AMADEUS_SERVICE_NAME] when set and not empty, else
    [AMADEUS_ENV] when set and not empty, else "test"; it is never
    empty. *)
Theorem getEnvAuth_spec (env : gmap string string) :
  (forall c,
      getEnvAuth env = inr c <->
      env !! "AMADEUS_API_KEY" = Some (c_apiKey c) /\ c_apiKey c <> ""
      /\ env !! "AMADEUS_API_SECRET" = Some (c_apiSecret c)
      /\ c_apiSecret c <> ""
      /\ c_serviceName c
         = envOr (env !! "AMADEUS_SERVICE_NAME")
             (envOr (env !! "AMADEUS_ENV") "test"))
  /\ (forall e, getEnvAuth env = inl e ->
                e = JsError missingCredentialsMessage None)
  /\ (forall c, getEnvAuth env = inr c ->
                c_serviceName c <> ""
                /\ (forall s, env !! "AMADEUS_SERVICE_NAME" = Some s ->
                              s <> "" -> c_serviceName c = s)
                /\ (forall s, (env !! "AMADEUS_SERVICE_NAME" = None
                               \/ env !! "AMADEUS_SERVICE_NAME" = Some "") ->
                              env !! "AMADEUS_ENV" = Some s -> s <> "" ->
                              c_serviceName c = s)
                /\ ((env !! "AMADEUS_SERVICE_NAME" = None
                     \/ env !! "AMADEUS_SERVICE_NAME" = Some "") ->
                    (env !! "AMADEUS_ENV" = None
                     \/ env !! "AMADEUS_ENV" = Some "") ->
                    c_serviceName c = "test")).
Proof.
  assert (Hor : forall v fb, fb <> "" -> envOr v fb <> "").
  { intros [s|] fb Hfb; cbn; [|exact Hfb].
    destruct (String.eqb_spec s ""); [exact Hfb|assumption]. }
  split; [|split].
  - intros [sn k s]. unfold getEnvAuth. cbn [c_apiKey c_apiSecret c_serviceName].
    destruct (env !! "AMADEUS_API_KEY") as [k'|],
      (env !! "AMADEUS_API_SECRET") as [s'|];
      try (split; [discriminate|intros (? & _ & ? & _); discriminate]).
    destruct (String.eqb_spec k' ""), (String.eqb_spec s' ""); cbn [orb];
      try (split; [discriminate|intros ([= ->] & ? & [= ->] & ? & _); congruence]).
    split.
    + intros [= <- <- <-]. auto.
    + intros ([= ->] & _ & [= ->] & _ & ->). reflexivity.
  - intros e. unfold getEnvAuth.
    destruct (env !! "AMADEUS_API_KEY"), (env !! "AMADEUS_API_SECRET");
      try (by intros [= <-]).
    destruct (_ || _); [by intros [= <-]|discriminate].
  - intros c Hc.
    assert (Hsn : c_serviceName c
                  = envOr (env !! "AMADEUS_SERVICE_NAME")
                      (envOr (env !! "AMADEUS_ENV") "test")).
    { revert Hc. unfold getEnvAuth.
      destruct (env !! "AMADEUS_API_KEY"), (env !! "AMADEUS_API_SECRET");
        try discriminate.
      destruct (_ || _); [discriminate|]. by intros [= <-]. }
    rewrite Hsn. split; [|split; [|split]].
    + apply Hor, Hor. discriminate.
    + intros s -> Hs. cbn. by destruct (String.eqb_spec s "").
    + intros s [-> | ->] -> Hs; cbn; by destruct (String.eqb_spec s "").
    + intros [-> | ->] [-> | ->]; reflexivity.
Qed.

Lemma getEnvAuth_spec_witness :
  getEnvAuth (<["AMADEUS_API_KEY" := "k"]>
                (<["AMADEUS_API_SECRET" := "s"]>
                   (<["AMADEUS_ENV" := "production"]> ∅)))
  = inr {| c_serviceName := "production"; c_apiKey := "k"; c_apiSecret := "s" |}.
Proof.
  apply (proj1 (getEnvAuth_spec _)). repeat split; try discriminate.
Defined.

(** ** Headers *)

Section MoreHeaderFacts.

Variable ToString : JsValue -> string.

Lemma list_to_map_lookupProp (props : list (string * JsValue)) k :
  (list_to_map props : gmap string JsValue) !! k
  = if hasKey k props then Some (Js.lookupProp k props) else None.
Proof.
  induction props as [|[k' v'] props IH]; [apply lookup_empty|].
  cbn [list_to_map foldr hasKey existsb Js.lookupProp fst snd].
  change (foldr _ _ props) with (list_to_map props : gmap string JsValue).
  destruct (String.eqb_spec k' k) as [->|Hne]; cbn [orb].
  - apply lookup_insert_eq.
  - rewrite lookup_insert_ne by exact Hne. exact IH.
Qed.

(** X13: the headers of the resource request are [Content-Type] with the
    content type, [Authorization] with the bearer token, and every other
    own property of the caller's headers with its value: headers of the
    caller under other names, a lower-case [content-type] among them, are
    sent on unchanged beside the two the server sets. *)
Theorem mergeHeaders_spec h token ct k v :
  mergeHeaders ToString h token ct !! k = Some v <->
  (k = "Content-Type" /\ v = JsStr ct)
  \/ (k = "Authorization" /\ v = JsStr ("Bearer " +:+ ToString token))
  \/ (k <> "Content-Type" /\ k <> "Authorization"
      /\ hasKey k (Js.ownProps h) = true
      /\ v = Js.lookupProp k (Js.ownProps h)).
Proof.
  unfold mergeHeaders.
  destruct (decide (k = "Content-Type")) as [->|Hct].
  { rewrite lookup_insert_eq. split.
    - intros [= <-]. by left.
    - intros [[_ ->]|[[[=] _]|(Hne & _)]]; [reflexivity|congruence]. }
  rewrite lookup_insert_ne by congruence.
  destruct (decide (k = "Authorization")) as [->|Ha].
  { rewrite lookup_insert_eq. split.
    - intros [= <-]. right. by left.
    - intros [[[=] _]|[[_ ->]|(_ & Hne & _)]]; [reflexivity|congruence]. }
  rewrite lookup_insert_ne by congruence.
  rewrite list_to_map_lookupProp. split.
  - destruct (hasKey k (Js.ownProps h)) eqn:Hk; [|discriminate].
    intros [= <-]. right. right. auto.
  - intros [[-> _]|[[-> _]|(_ & _ & -> & ->)]]; congruence.
Qed.

End MoreHeaderFacts.

(** X14: [assertNoAuthHeader] throws exactly when some own key of the
    headers is "authorization" up to the case of its letters, and what it
    throws is the error that asks not to send Authorization; it lets
    through every value without own properties to enumerate, such as
    [undefined], [null] and numbers. *)
Theorem assertNoAuthHeader_spec h :
  (assertNoAuthHeader h = inl (JsError authHeaderMessage None) <->
   exists k v, In (k, v) (Js.ownProps h)
               /\ JsString.toLowerCase k = "authorization")
  /\ (forall e, assertNoAuthHeader h = inl e ->
                e = JsError authHeaderMessage None)
  /\ (Js.ownProps h = [] -> assertNoAuthHeader h = inr tt).
Proof.
  unfold assertNoAuthHeader.
  pose proof (hasAuthorizationKey_true_iff h) as Hiff.
  split; [|split].
  - split.
    + destruct (negb (Js.truthy h)); [discriminate|].
      destruct (hasAuthorizationKey h); [intros _; by apply Hiff|discriminate].
    + intros Hex. pose proof (proj2 Hiff Hex) as Hyes. rewrite Hyes.
      destruct Hex as (k & v & Hin & _).
      destruct h as [| | | | |items|props]; try (destruct Hin); reflexivity.
  - intros e. destruct (negb (Js.truthy h)); [discriminate|].
    destruct (hasAuthorizationKey h); [by intros [= <-]|discriminate].
  - intros Hnil. destruct (negb (Js.truthy h)); [reflexivity|].
    destruct (hasAuthorizationKey h) eqn:Hyes; [|reflexivity].
    destruct (proj1 Hiff eq_refl) as (k & v & Hin & _).
    rewrite Hnil in Hin. destruct Hin.
Qed.

Lemma assertNoAuthHeader_spec_witness :
  assertNoAuthHeader (JsObj [("X-Trace", JsStr "1"); ("AuThOrIzAtIoN", JsStr "x")])
  = inl (JsError authHeaderMessage None)
  /\ assertNoAuthHeader (JsStr "authorization") = inr tt.
Proof.
  split.
  - apply (proj1 (assertNoAuthHeader_spec _)).
    exists "AuThOrIzAtIoN", (JsStr "x"). split; [right; by left|reflexivity].
  - apply (proj2 (proj2 (assertNoAuthHeader_spec _))). reflexivity.
Defined.

(** ** What normalizeBase returns *)

(** X15: every result of [normalizeBase] holds the three credentials of
    the input unchanged (untrimmed), each a string with a character that is
    not white space; the query and the headers of the input when they are
    objects or arrays and the empty object otherwise; the body of the
    input; the content type of the input when it is a string and
    "application/json" otherwise; a timeout in (0, 60000]; and headers
    without an authorization key. *)
Theorem normalizeBase_result input b :
  normalizeBase input = inr b ->
  (Js.getProp input "serviceName" = JsStr (b_serviceName b)
   /\ JsString.trimIsEmpty (b_serviceName b) = false)
  /\ (Js.getProp input "apiKey" = JsStr (b_apiKey b)
      /\ JsString.trimIsEmpty (b_apiKey b) = false)
  /\ (Js.getProp input "apiSecret" = JsStr (b_apiSecret b)
      /\ JsString.trimIsEmpty (b_apiSecret b) = false)
  /\ b_query b = match Js.getProp input "query" with
                 | JsArr _ | JsObj _ => Js.getProp input "query"
                 | _ => JsObj []
                 end
  /\ b_body b = Js.getProp input "body"
  /\ b_headers b = match Js.getProp input "headers" with
                   | JsArr _ | JsObj _ => Js.getProp input "headers"
                   | _ => JsObj []
                   end
  /\ hasAuthorizationKey (b_headers b) = false
  /\ b_contentType b = match Js.getProp input "contentType" with
                       | JsStr s => s
                       | _ => "application/json"
                       end
  /\ 0 < b_timeoutMs b <= 60000.
Proof.
  intros Hb. pose proof (normalizeBase_headers _ _ Hb) as [_ Hno].
  assert (Hobj : forall v, objectOrEmpty v
                           = match v with
                             | JsArr _ | JsObj _ => v
                             | _ => JsObj []
                             end).
  { intros [| |[]|[[|?|?]|? ? ?]|s| |]; try reflexivity.
    unfold objectOrEmpty. cbn. by rewrite andb_false_r. }
  revert Hb. unfold normalizeBase, mbind, Thrown_bind.
  destruct (ensureString _ "serviceName") as [|sn] eqn:H1; [discriminate|].
  destruct (ensureString _ "apiKey") as [|ak] eqn:H2; [discriminate|].
  destruct (ensureString _ "apiSecret") as [|sc] eqn:H3; [discriminate|].
  destruct (assertNoAuthHeader _); [discriminate|].
  destruct (negb _) eqn:Hr; [discriminate|]. intros [= <-].
  cbn [b_serviceName b_apiKey b_apiSecret b_query b_body b_headers
       b_contentType b_timeoutMs] in *.
  apply ensureString_inv in H1, H2, H3. rewrite !Hobj.
  rewrite Hobj in Hno. repeat split; try tauto; try lia.
Qed.

Lemma normalizeBase_result_witness :
  exists b, normalizeBase (inputWithTimeout (JsNum (NumInt 30000))) = inr b
            /\ b_query b = JsObj [] /\ b_contentType b = "application/json"
            /\ 0 < b_timeoutMs b <= 60000.
Proof.
  eexists. split; [reflexivity|].
  pose proof (normalizeBase_result
                (inputWithTimeout (JsNum (NumInt 30000))) _ eq_refl)
    as (_ & _ & _ & Hq & _ & _ & _ & Hct & Htm).
  auto.
Defined.

Lemma getAmadeusToken_outcome_witness :
  snd (Scenario.getToken
         (Sample.twoStep (NetFailure "timeout of 15000ms exceeded")
            Scenario.notFound) [])
  = inl (JsError "Amadeus auth error: timeout of 15000ms exceeded" None).
Proof.
  apply (proj2 (proj2 (proj2 (proj2
           (getAmadeusToken_outcome
              (Sample.twoStep (NetFailure "timeout of 15000ms exceeded")
                 Scenario.notFound)
              Sample.stringify Sample.formEncode
              "key" "secret" "test" (Some 15000) []))))).
  reflexivity.
Defined.
